(** * Rotary-phone guestbook: a shallow embedding of [app.py]

    The controller of [app.py] is embedded as functions over an explicit
    system state: the current state of the call state machine, the two audio
    objects, the part of the file system the program looks at, and the trace
    of everything the program does to the outside world (log records,
    processes spawned, terminated and waited for, sleeps).  Python exceptions
    are the [Raise] outcome of a small state-and-exception monad.

    What the embedding takes from outside [app.py]:
    - the [StateMachine] base class is the python-statemachine library.  An
      event sent in a state from which it has no transition raises
      [TransitionNotAllowed]; a transition runs the exit action of its source,
      then sets the current state, then runs the entry action of its target;
      a transition from a state to itself is external (exit and entry actions
      both run);
    - [subprocess.Popen] is taken to succeed and to hand out a fresh process;
    - [time.time()] readings and GPIO levels are inputs of each loop
      iteration; clock readings are rationals (seconds);
    - [Path(number)] is the string [number] itself and [p / name] is
      [p + "/" + name], which is what pathlib does on digit strings. *)

From stdpp Require Import base strings gmap pretty list.
From Stdlib Require Import QArith.

Local Open Scope nat_scope.

(** ** Data model *)

Inductive CallState := Idle | Dialing | Answering.

(** The four events of the machine; [dial] carries its keyword argument. *)
Inductive Event :=
  | Pickup
  | Dial (number : string)
  | Answer
  | HangUp.

Inductive level := DEBUG | INFO | WARNING | ERROR.

Definition pid := nat.

Inductive effect :=
  | Log (lvl : level) (msg : string)
  | Spawn (p : pid) (command : list string)
  | Terminate (p : pid)
  | Wait (p : pid)
  | Sleep (seconds : Q).

Inductive exn :=
  | TransitionNotAllowed (e : Event) (s : CallState)
  | AttributeError (msg : string)
  | TypeError (msg : string)
  | FileExistsError (path : string)
  | Unbounded.

Inductive node := File | Dir.

(** [BaseAudio.__init__] creates [current_process]; [_execute] creates
    [current_recording_process] (absent, here [None], before the first call). *)
Record BaseAudio := mkAudio {
  current_process : option pid;
  current_recording_process : option pid
}.

Inductive role := Player | Recorder.

Record System := mkSystem {
  current_state : CallState;
  audio_player : BaseAudio;
  audio_recorder : BaseAudio;
  fs : gmap string node;
  next_pid : pid;
  trace : list effect
}.

Global Instance CallState_eq_dec : EqDecision CallState.
Proof. solve_decision. Defined.

Definition get_audio (r : role) (w : System) : BaseAudio :=
  match r with Player => audio_player w | Recorder => audio_recorder w end.

Definition set_audio (r : role) (a : BaseAudio) (w : System) : System :=
  match r with
  | Player =>
      mkSystem (current_state w) a (audio_recorder w) (fs w) (next_pid w) (trace w)
  | Recorder =>
      mkSystem (current_state w) (audio_player w) a (fs w) (next_pid w) (trace w)
  end.

Definition set_state (s : CallState) (w : System) : System :=
  mkSystem s (audio_player w) (audio_recorder w) (fs w) (next_pid w) (trace w).

Definition set_fs (f : gmap string node) (w : System) : System :=
  mkSystem (current_state w) (audio_player w) (audio_recorder w) f (next_pid w) (trace w).

Definition emit (e : effect) (w : System) : System :=
  mkSystem (current_state w) (audio_player w) (audio_recorder w) (fs w) (next_pid w)
           (trace w ++ [e]).

Definition fresh_pid (w : System) : System :=
  mkSystem (current_state w) (audio_player w) (audio_recorder w) (fs w) (S (next_pid w))
           (trace w).

(** ** Outcomes and the monad *)

Inductive Result (A : Type) :=
  | Ok (a : A) (w : System)
  | Raise (e : exn) (w : System).
Arguments Ok {A} a w.
Arguments Raise {A} e w.

Definition M (A : Type) := System → Result A.

Definition ret {A} (a : A) : M A := λ w, Ok a w.
Definition raise {A} (e : exn) : M A := λ w, Raise e w.
Definition bind {A B} (m : M A) (k : A → M B) : M B :=
  λ w, match m w with
       | Ok a w' => k a w'
       | Raise e w' => Raise e w'
       end.

Notation "x <- m ;; k" := (bind m (λ x, k))
  (at level 100, m at next level, right associativity, only parsing).
Notation "m ;; k" := (bind m (λ _, k))
  (at level 100, right associativity, only parsing).

Definition final {A} (r : Result A) : System :=
  match r with Ok _ w => w | Raise _ w => w end.

Definition log (lvl : level) (msg : string) : M unit := λ w, Ok tt (emit (Log lvl msg) w).
Definition sleep (seconds : Q) : M unit := λ w, Ok tt (emit (Sleep seconds) w).
Definition get_state : M CallState := λ w, Ok (current_state w) w.

Definition PULSE_SECONDS : Q := 0.05.

(** ** Paths *)

Definition Path (s : string) : string := s.
Definition path_join (folder name : string) : string := folder +:+ "/" +:+ name.
Definition path_exists (p : string) (w : System) : bool :=
  match fs w !! p with Some _ => true | None => false end.

(** [folder_path.mkdir(parents=True, exist_ok=True)] *)
Definition mkdir (p : string) : M unit := λ w,
  match fs w !! p with
  | Some File => Raise (FileExistsError p) w
  | Some Dir => Ok tt w
  | None => Ok tt (set_fs (<[p := Dir]> (fs w)) w)
  end.

(** ** class BaseAudio *)

Module Audio.

Definition _execute (self : role) (command : list string) : M unit := λ w,
  let process := next_pid w in
  let w1 := fresh_pid (emit (Spawn process command) w) in
  let a := get_audio self w1 in
  Ok tt (set_audio self (mkAudio (current_process a) (Some process)) w1).

Definition stop (self : role) : M unit := λ w,
  let a := get_audio self w in
  match current_process a with
  | None => Ok tt w
  | Some p =>
      let w1 := emit (Wait p) (emit (Terminate p) w) in
      Ok tt (set_audio self (mkAudio None (current_recording_process a)) w1)
  end.

Definition wait (self : role) : M unit := λ w,
  match current_process (get_audio self w) with
  | None => Raise (AttributeError "'NoneType' object has no attribute 'wait'") w
  | Some p => Ok tt (emit (Wait p) w)
  end.

End Audio.

(** ** class AudioRecorder *)

Module AudioRecorder.

(** The [while True] loop of [get_unique_filename], started at [index];
    [fuel] bounds the number of iterations. *)
Fixpoint get_unique_filename_from (fuel index : nat) (folder_path : string)
    (w : System) : option string :=
  match fuel with
  | 0 => None
  | S fuel' =>
      let filename := path_join folder_path (pretty index +:+ ".mp3") in
      if negb (path_exists filename w) then Some filename
      else get_unique_filename_from fuel' (S index) folder_path w
  end.

(** One more iteration than there are entries in the file system is always
    enough (see [get_unique_filename_total]). *)
Definition get_unique_filename (folder_path : string) : M string := λ w,
  match get_unique_filename_from (S (size (fs w))) 1 folder_path w with
  | Some filename => Ok filename w
  | None => Raise Unbounded w
  end.

Definition record (number : string) : M role :=
  let folder_path := Path number in
  mkdir folder_path ;;
  output_file <- get_unique_filename folder_path ;;
  Audio._execute Recorder ["rec"; "-t"; "mp3"; output_file] ;;
  ret Recorder.

End AudioRecorder.

(** ** class AudioPlayer *)

Module AudioPlayer.

(** Returns [self], or [None] when the file is missing. *)
Definition play (file : string) : M (option role) := λ w,
  if negb (path_exists (Path file) w) then
    (log ERROR "Audioplayer: File does not exist." ;; ret None) w
  else
    (Audio.stop Player ;;
     Audio._execute Player ["play"; file] ;;
     ret (Some Player)) w.

Definition dial : M unit := play "dial.mp3" ;; ret tt.
Definition beep : M unit := play "beep.mp3" ;; ret tt.

End AudioPlayer.

(** ** class Phone(StateMachine) *)

(** Locals of [_get_dial], alive across iterations. *)
Record DialLocals := mkLocals {
  num : nat;
  prnt : bool;
  last : bool;
  dialed_numbers : list nat;
  last_dial_time : Q
}.

(** What one iteration of [_get_dial] reads from outside: the level of
    [PULSE_PIN], the clock at line 170 (read only when a digit is finalized)
    and the clock at line 173. *)
Record DialInput := mkDialInput {
  pulse : bool;
  clock_finalize : Q;
  clock_check : Q
}.

(** What one iteration of [_get_earpiece] reads from outside: whether the
    notification queue holds an item, and the level of [EARPIECE_PIN]. *)
Record HookInput := mkHookInput {
  notified : bool;
  earpiece_level : bool
}.

Module Phone.

(** The transition table, lines 83-86. *)
Definition target (e : Event) (s : CallState) : option CallState :=
  match e, s with
  | Pickup, Idle => Some Dialing
  | Dial _, Dialing => Some Answering
  | Answer, Answering => Some Idle
  | HangUp, Idle => Some Idle
  | HangUp, Dialing => Some Idle
  | HangUp, Answering => Some Idle
  | _, _ => None
  end.

Definition on_enter_idle : M unit :=
  log INFO "Hung up wtf." ;;
  Audio.stop Recorder ;;
  Audio.stop Player.

Definition on_exit_idle : M unit :=
  log INFO "Phone picked up!".

Definition on_enter_dialing : M unit :=
  log INFO "Playing the wait tone meanwhile." ;;
  AudioPlayer.dial.

Definition on_exit_dialing : M unit :=
  log INFO "Stopping the wait tone." ;;
  Audio.stop Player.

Definition on_enter_answering (number : string) : M unit :=
  log INFO ("Dealed: " +:+ number) ;;
  log INFO "Answer after the peep." ;;
  played <- AudioPlayer.play "beep-long.mp3" ;;
  match played with
  | Some self => Audio.wait self
  | None => raise (AttributeError "'NoneType' object has no attribute 'wait'")
  end ;;
  log INFO "Recording your answer now." ;;
  AudioRecorder.record number ;;
  ret tt.

Definition on_exit (s : CallState) : M unit :=
  match s with
  | Idle => on_exit_idle
  | Dialing => on_exit_dialing
  | Answering => ret tt
  end.

Definition on_enter (s : CallState) (e : Event) : M unit :=
  match s with
  | Idle => on_enter_idle
  | Dialing => on_enter_dialing
  | Answering =>
      match e with
      | Dial number => on_enter_answering number
      | _ => raise (TypeError "on_enter_answering() missing argument 'number'")
      end
  end.

(** Sending an event to the machine. *)
Definition send (e : Event) : M unit := λ w,
  let source := current_state w in
  match target e source with
  | None => Raise (TransitionNotAllowed e source) w
  | Some dest =>
      (on_exit source ;;
       (λ w', Ok tt (set_state dest w')) ;;
       on_enter dest e) w
  end.

Definition pickup : M unit := send Pickup.
Definition dial (number : string) : M unit := send (Dial number).
Definition answer : M unit := send Answer.
Definition hang_up : M unit := send HangUp.

(** [stop]; setting the shutdown flag ends the input lists of the loops. *)
Definition stop : M unit :=
  Audio.stop Player ;;
  Audio.stop Recorder.

(** One iteration of the [while] loop of [_get_earpiece]. *)
Definition _get_earpiece_iter (i : HookInput) : M unit :=
  if negb (notified i) then ret tt
  else
    let earpiece_home := earpiece_level i in
    if negb earpiece_home then
      sleep 0.75 ;;
      s <- get_state ;;
      if negb (bool_decide (s = Idle)) then ret tt
      else pickup
    else hang_up.

Fixpoint _get_earpiece (inputs : list HookInput) : M unit :=
  match inputs with
  | [] => ret tt
  | i :: rest => _get_earpiece_iter i ;; _get_earpiece rest
  end.

(** [current_time - last_dial_time > 1.5] *)
Definition gap_elapsed (current_time last_dial_time : Q) : bool :=
  negb (Qle_bool (current_time - last_dial_time) 1.5).

Definition nonempty {A} (l : list A) : bool :=
  match l with [] => false | _ => true end.

(** ["".join(map(str, dialed_numbers))] *)
Definition join_digits (dialed_numbers : list nat) : string :=
  String.concat "" (map pretty dialed_numbers).

(** Lines 161-170: the branch that finalizes a digit. *)
Definition finalize (i : DialInput) (l : DialLocals) : M DialLocals :=
  let num := if num l =? 10 then 0 else num l in
  Audio.stop Player ;;
  log DEBUG ("get_dial: dialed " +:+ pretty num +:+ ".") ;;
  ret (mkLocals 0 false false (dialed_numbers l ++ [num]) (clock_finalize i)).

(** Lines 172-177: the inter-digit gap check. *)
Definition flush (i : DialInput) (l : DialLocals) : M DialLocals :=
  let current_time := clock_check i in
  if gap_elapsed current_time (last_dial_time l) && nonempty (dialed_numbers l) then
    dial (join_digits (dialed_numbers l)) ;;
    ret (mkLocals (num l) (prnt l) (last l) [] current_time)
  else ret l.

(** One iteration of the [while] loop of [_get_dial]. *)
Definition _get_dial_iter (i : DialInput) (l : DialLocals) : M DialLocals :=
  s <- get_state ;;
  if negb (bool_decide (s = Dialing)) then ret l
  else
    let pulse := pulse i in
    if pulse && xorb pulse (last l) then
      sleep PULSE_SECONDS ;;
      ret (mkLocals (num l + 1) true true (dialed_numbers l) (last_dial_time l))
    else if negb pulse && xorb pulse (last l) then
      sleep PULSE_SECONDS ;;
      ret (mkLocals (num l) (prnt l) false (dialed_numbers l) (last_dial_time l))
    else
      l1 <- (if negb pulse && Bool.eqb pulse (last l) && prnt l
             then finalize i l else ret l) ;;
      flush i l1.

Fixpoint dial_loop (inputs : list DialInput) (l : DialLocals) : M DialLocals :=
  match inputs with
  | [] => ret l
  | i :: rest => l1 <- _get_dial_iter i l ;; dial_loop rest l1
  end.

(** [_get_dial]: [start] is the clock reading of line 144, [inputs] the
    iterations made before the shutdown flag is seen. *)
Definition _get_dial (start : Q) (inputs : list DialInput) : M unit :=
  dial_loop inputs (mkLocals 0 false false [] start) ;;
  log WARNING "Pulser received signal.".

End Phone.

(** A system at rest: machine in [Idle], no process handle held, the given
    files present, nothing traced yet. *)
Definition at_rest (files : gmap string node) : System :=
  mkSystem Idle (mkAudio None None) (mkAudio None None) files 0 [].

Definition sounds : gmap string node :=
  {[ "dial.mp3" := File; "beep.mp3" := File; "beep-long.mp3" := File ]}.

(** * Properties *)

(** ** Unfolding the monad *)

Lemma bind_Ok {A B} (m : M A) (k : A → M B) w a w' :
  m w = Ok a w' → bind m k w = k a w'.
Proof. unfold bind. intros ->. reflexivity. Qed.

Lemma bind_Raise {A B} (m : M A) (k : A → M B) w e w' :
  m w = Raise e w' → bind m k w = Raise e w'.
Proof. unfold bind. intros ->. reflexivity. Qed.

(** ** [BaseAudio] *)

(** [stop] never raises, and leaves [current_process] empty. *)
Lemma stop_ok self w :
  ∃ w', Audio.stop self w = Ok tt w'
        ∧ current_process (get_audio self w') = None
        ∧ current_state w' = current_state w
        ∧ fs w' = fs w.
Proof.
  unfold Audio.stop.
  destruct (current_process (get_audio self w)) eqn:E.
  - eexists. split; [reflexivity|]. destruct self; simpl; auto.
  - eexists. split; [reflexivity|]. auto.
Qed.

(** With no process in [current_process], [stop] does nothing at all. *)
Lemma stop_noop self w :
  current_process (get_audio self w) = None → Audio.stop self w = Ok tt w.
Proof. unfold Audio.stop. intros ->. reflexivity. Qed.

(** [_execute] keeps the handle in [current_recording_process];
    [current_process] is left as it was. *)
Lemma execute_keeps_current_process self command w :
  ∃ w', Audio._execute self command w = Ok tt w'
        ∧ ∀ r, current_process (get_audio r w') = current_process (get_audio r w).
Proof.
  unfold Audio._execute. eexists. split; [reflexivity|].
  intros r. destruct self, r; reflexivity.
Qed.

(** ** The state machine *)

(** [play] always returns, and leaves the player with no [current_process]
    whenever it returns the player. *)
Lemma play_ok file w :
  ∃ r w', AudioPlayer.play file w = Ok r w'
          ∧ current_state w' = current_state w
          ∧ (r = None ∨ current_process (audio_player w') = None).
Proof.
  unfold AudioPlayer.play.
  destruct (negb (path_exists (Path file) w)).
  - eexists _, _. split; [reflexivity|]. split; [reflexivity|]. now left.
  - unfold bind at 1.
    destruct (stop_ok Player w) as (w1 & -> & Hnone & Hst & _).
    eexists _, _. split; [reflexivity|]. simpl in *. split; [assumption|]. now right.
Qed.

(** The entry action of [Idle] never raises. *)
Lemma on_enter_idle_ok w :
  ∃ w', Phone.on_enter_idle w = Ok tt w'
        ∧ current_state w' = current_state w
        ∧ current_process (audio_player w') = None
        ∧ current_process (audio_recorder w') = None
        ∧ fs w' = fs w.
Proof.
  unfold Phone.on_enter_idle, bind, log.
  destruct (stop_ok Recorder (emit (Log INFO "Hung up wtf.") w))
    as (w1 & -> & Hr & Hs1 & Hf1).
  unfold Audio.stop.
  destruct (current_process (get_audio Player w1)) eqn:E;
    eexists; (split; [reflexivity|]); simpl in *; auto.
Qed.

(** The exit actions never raise and keep the state. *)
Lemma on_exit_ok s w :
  ∃ w', Phone.on_exit s w = Ok tt w'
        ∧ current_state w' = current_state w ∧ fs w' = fs w.
Proof.
  destruct s; simpl.
  - eexists. split; [reflexivity|]. auto.
  - unfold Phone.on_exit_dialing, bind, log.
    destruct (stop_ok Player (emit (Log INFO "Stopping the wait tone.") w))
      as (w1 & -> & _ & Hs & Hf).
    eexists. split; [reflexivity|]. auto.
  - eexists. split; [reflexivity|]. auto.
Qed.

(** [hang_up] never raises and ends in [Idle] with both [current_process]
    fields empty. *)
Lemma hang_up_ok v :
  ∃ v', Phone.hang_up v = Ok tt v' ∧ current_state v' = Idle
        ∧ current_process (audio_player v') = None
        ∧ current_process (audio_recorder v') = None.
Proof.
  unfold Phone.hang_up, Phone.send.
  replace (Phone.target HangUp (current_state v)) with (Some Idle)
    by (destruct (current_state v); reflexivity).
  unfold bind at 1.
  destruct (on_exit_ok (current_state v) v) as (v1 & -> & _ & _).
  unfold bind at 1. simpl.
  destruct (on_enter_idle_ok (set_state Idle v1)) as (v2 & -> & Hs & Hp & Hr & _).
  eexists. split; [reflexivity|]. auto.
Qed.

(** C6 -- [hang_up] has a transition from each of the three states, all of
    them to [Idle]; sending it never raises and leaves the machine in
    [Idle], and sending it a second time leaves the machine, both audio
    objects and the file system as the first time left them. *)
Theorem hang_up_from_every_state (w : System) :
  Phone.target HangUp (current_state w) = Some Idle
  ∧ ∃ w1 w2,
      Phone.hang_up w = Ok tt w1
      ∧ current_state w1 = Idle
      ∧ Phone.hang_up w1 = Ok tt w2
      ∧ current_state w2 = current_state w1
      ∧ audio_player w2 = audio_player w1
      ∧ audio_recorder w2 = audio_recorder w1
      ∧ fs w2 = fs w1.
Proof.
  split; [destruct (current_state w); reflexivity|].
  destruct (hang_up_ok w) as (w1 & H1 & Hs1 & Hp1 & Hr1).
  exists w1. eexists. split; [exact H1|]. split; [exact Hs1|].
  destruct w1 as [s1 [pp pr] [rp rr] f1 n1 t1]. simpl in *. subst s1 pp rp.
  split; [reflexivity|]. simpl. auto.
Qed.

(** The entry action of [Answering] starts the prompt (when the file is
    there) and then raises at [.wait()]: [play] has either returned [None],
    or has called [stop], which empties [current_process], and [_execute],
    which fills [current_recording_process].  [record] is not reached. *)
Lemma on_enter_answering_raises number w :
  ∃ w', Phone.on_enter_answering number w
          = Raise (AttributeError "'NoneType' object has no attribute 'wait'") w'
        ∧ current_state w' = current_state w
        ∧ audio_recorder w' = audio_recorder w
        ∧ fs w' = fs w
        ∧ (∀ p c, Spawn p c ∈ trace w' →
                  Spawn p c ∈ trace w ∨ c = ["play"; "beep-long.mp3"]).
Proof.
  destruct w as [s [pp pr] rec f n t].
  unfold Phone.on_enter_answering, AudioPlayer.play, bind, log, ret, raise,
    Audio.stop, Audio.wait, Audio._execute, path_exists, Path. simpl.
  destruct (f !! "beep-long.mp3"); simpl.
  - destruct pp; simpl; eexists; (split; [reflexivity|]); simpl;
      repeat split; intros p' c Hin;
      repeat (apply elem_of_app in Hin as [Hin|Hin]);
      try (apply list_elem_of_singleton in Hin; inversion Hin; subst);
      auto.
  - eexists. split; [reflexivity|]. simpl. repeat split. intros p' c Hin.
    repeat (apply elem_of_app in Hin as [Hin|Hin]);
      try (apply list_elem_of_singleton in Hin; inversion Hin; subst);
      auto.
Qed.

(** In [Dialing], [dial] runs the exit action, moves to [Answering] and
    raises inside the entry action. *)
Lemma dial_raises_in_dialing (number : string) (w : System)
    (Hdialing : current_state w = Dialing) :
  ∃ w', Phone.dial number w
          = Raise (AttributeError "'NoneType' object has no attribute 'wait'") w'
        ∧ current_state w' = Answering
        ∧ audio_recorder w' = audio_recorder w
        ∧ fs w' = fs w
        ∧ ∀ p c, Spawn p c ∈ trace w' →
                 Spawn p c ∈ trace w ∨ c = ["play"; "beep-long.mp3"].
Proof.
  unfold Phone.dial, Phone.send. rewrite Hdialing. simpl.
  unfold bind at 1. unfold Phone.on_exit_dialing, bind at 1, log.
  set (w0 := emit (Log INFO "Stopping the wait tone.") w).
  assert (Hstop : ∃ w1, Audio.stop Player w0 = Ok tt w1
            ∧ audio_recorder w1 = audio_recorder w ∧ fs w1 = fs w
            ∧ ∀ p c, Spawn p c ∈ trace w1 → Spawn p c ∈ trace w).
  { unfold Audio.stop. destruct (current_process (get_audio Player w0));
      eexists; (split; [reflexivity|]); simpl; repeat split; intros p' c Hin;
      repeat (apply elem_of_app in Hin as [Hin|Hin]);
      try (apply list_elem_of_singleton in Hin; inversion Hin); auto. }
  destruct Hstop as (w1 & -> & Hrec & Hfs & Htr).
  unfold bind at 1.
  destruct (on_enter_answering_raises number (set_state Answering w1))
    as (w2 & -> & Hs2 & Hr2 & Hf2 & Ht2).
  exists w2. split; [reflexivity|]. simpl in *.
  split; [assumption|]. split; [congruence|]. split; [congruence|].
  intros p c Hin. destruct (Ht2 p c Hin) as [H|H]; auto.
Qed.

(** C4 -- the [dial] transition, sent in [Dialing] with any number: the
    machine reaches [Answering], and the entry action raises
    [AttributeError] at the [.wait()] of line 201; the recorder is left
    untouched, the number's directory is not created and the only process
    that may have been started is the prompt's player. *)
Theorem dial_never_starts_recording (number : string) (w : System)
    (Hdialing : current_state w = Dialing) :
  ∃ w', Phone.dial number w
          = Raise (AttributeError "'NoneType' object has no attribute 'wait'") w'
        ∧ current_state w' = Answering
        ∧ audio_recorder w' = audio_recorder w
        ∧ fs w' = fs w
        ∧ ∀ p c, Spawn p c ∈ trace w' →
                 Spawn p c ∈ trace w ∨ c = ["play"; "beep-long.mp3"].
Proof. exact (dial_raises_in_dialing number w Hdialing). Qed.

Lemma dial_never_starts_recording_witness :
  ∃ w', Phone.dial "0" (final (Phone.pickup (at_rest sounds)))
          = Raise (AttributeError "'NoneType' object has no attribute 'wait'") w'
        ∧ current_state w' = Answering
        ∧ audio_recorder w' = audio_recorder (final (Phone.pickup (at_rest sounds)))
        ∧ fs w' = fs (final (Phone.pickup (at_rest sounds)))
        ∧ ∀ p c, Spawn p c ∈ trace w' →
                 Spawn p c ∈ trace (final (Phone.pickup (at_rest sounds)))
                 ∨ c = ["play"; "beep-long.mp3"].
Proof.
  apply (dial_never_starts_recording "0" (final (Phone.pickup (at_rest sounds)))).
  reflexivity.
Defined.

(** No method of the program writes [current_process] except [stop], which
    empties it: a system in which both are empty stays so. *)
Definition handles_empty (w : System) : Prop :=
  current_process (audio_player w) = None
  ∧ current_process (audio_recorder w) = None.

(** With both [current_process] fields empty, the entry action of [Idle]
    logs its line and does nothing else, whatever processes are running. *)
Lemma on_enter_idle_terminates_nothing w :
  handles_empty w →
  Phone.on_enter_idle w = Ok tt (emit (Log INFO "Hung up wtf.") w).
Proof.
  intros [Hp Hr]. unfold Phone.on_enter_idle, bind, log.
  rewrite stop_noop by (simpl; assumption).
  rewrite stop_noop by (simpl; assumption).
  reflexivity.
Qed.

(** C5 -- a playback started by [pickup] (process 0, the dial tone) is not
    terminated by the [hang_up] that follows, and neither is a recording
    started by [record] when [Idle] is entered next: [_execute] has put the
    handles in [current_recording_process], and [stop] looks at
    [current_process].  The trace of [hang_up] consists of the two log
    lines of the exit and entry actions. *)
Theorem hang_up_leaves_processes_running :
  let w := final (Phone.pickup (at_rest sounds)) in
  let v := final (AudioRecorder.record "7" (at_rest sounds)) in
  Spawn 0 ["play"; "dial.mp3"] ∈ trace w
  ∧ Phone.hang_up w
      = Ok tt (set_state Idle
                 (emit (Log INFO "Hung up wtf.")
                    (emit (Log INFO "Stopping the wait tone.") w)))
  ∧ (Terminate 0 ∉ trace (final (Phone.hang_up w)))
  ∧ trace v = [Spawn 0 ["rec"; "-t"; "mp3"; "7/1.mp3"]]
  ∧ Phone.on_enter_idle v = Ok tt (emit (Log INFO "Hung up wtf.") v)
  ∧ (Terminate 0 ∉ trace (final (Phone.on_enter_idle v))).
Proof.
  cbv zeta. split; [vm_compute; set_solver|].
  split; [reflexivity|].
  split.
  { intros Hin. vm_compute in Hin.
    repeat (apply elem_of_cons in Hin as [Hin|Hin]; [discriminate Hin|]).
    inversion Hin. }
  split; [reflexivity|].
  split; [reflexivity|].
  intros Hin. vm_compute in Hin.
  repeat (apply elem_of_cons in Hin as [Hin|Hin]; [discriminate Hin|]).
  inversion Hin.
Qed.

(** ** Events outside the transition table *)

(** In [Idle], [pickup] never raises and ends in [Dialing]. *)
Lemma pickup_ok w :
  current_state w = Idle →
  ∃ w', Phone.pickup w = Ok tt w' ∧ current_state w' = Dialing.
Proof.
  intros Hidle. unfold Phone.pickup, Phone.send. rewrite Hidle. simpl.
  cbv beta iota delta
    [bind Phone.on_exit_idle Phone.on_enter_dialing AudioPlayer.dial log ret].
  match goal with |- context [AudioPlayer.play ?f ?v] =>
    destruct (play_ok f v) as (r & w' & -> & Hs & _) end.
  eexists. split; [reflexivity|]. exact Hs.
Qed.

(** An iteration of the hook loop never raises: [pickup] is sent only after
    the state was read as [Idle], and [hang_up] has a transition from every
    state. *)
Lemma get_earpiece_iter_ok i w :
  ∃ w', Phone._get_earpiece_iter i w = Ok tt w'.
Proof.
  unfold Phone._get_earpiece_iter.
  destruct (notified i); simpl; [|eexists; reflexivity].
  destruct (earpiece_level i); simpl.
  - destruct (hang_up_ok w) as (w' & -> & _). eexists; reflexivity.
  - unfold bind at 1, sleep. unfold bind at 1, get_state. simpl.
    destruct (bool_decide_reflect (current_state w = Idle)) as [Hidle|Hnot]; simpl.
    + destruct (pickup_ok (emit (Sleep 0.75) w) Hidle) as (w' & -> & _).
      eexists; reflexivity.
    + eexists; reflexivity.
Qed.

(** [finalize] never raises and keeps the state. *)
Lemma finalize_ok i l w :
  ∃ w', Phone.finalize i l w
          = Ok (mkLocals 0 false false
                  (dialed_numbers l ++ [if num l =? 10 then 0 else num l])
                  (clock_finalize i)) w'
        ∧ current_state w' = current_state w.
Proof.
  unfold Phone.finalize. unfold bind at 1.
  destruct (stop_ok Player w) as (w1 & -> & _ & Hs & _).
  eexists. split; [reflexivity|]. exact Hs.
Qed.

(** An iteration of the dial loop never raises [TransitionNotAllowed]: it
    sends [dial] only when it has read the state as [Dialing]. *)
Lemma get_dial_iter_no_transition_fault i l w e s w' :
  Phone._get_dial_iter i l w ≠ Raise (TransitionNotAllowed e s) w'.
Proof.
  unfold Phone._get_dial_iter. unfold bind at 1, get_state.
  destruct (bool_decide_reflect (current_state w = Dialing)) as [Hd|Hn]; simpl;
    [|discriminate].
  destruct (pulse i && xorb (pulse i) (last l)); [discriminate|].
  destruct (negb (pulse i) && xorb (pulse i) (last l)); [discriminate|].
  unfold bind at 1.
  assert (Hflush : ∀ l1 w1, current_state w1 = Dialing →
            Phone.flush i l1 w1 ≠ Raise (TransitionNotAllowed e s) w').
  { intros l1 w1 H1. unfold Phone.flush.
    destruct (_ && _); [|discriminate].
    unfold bind at 1.
    destruct (dial_raises_in_dialing (Phone.join_digits (dialed_numbers l1)) w1 H1)
      as (w2 & -> & _). discriminate. }
  destruct (negb (pulse i) && Bool.eqb (pulse i) (last l) && prnt l).
  - destruct (finalize_ok i l w) as (w1 & -> & Hs). apply Hflush. congruence.
  - simpl. apply Hflush. assumption.
Qed.

(** C3 (as the code has it) -- an event sent in a state from which it has no
    transition raises [TransitionNotAllowed] to its caller and leaves the
    whole system as it was (state, audio objects, trace); neither loop
    catches it, but neither loop sends such an event: no iteration of the
    hook loop raises, and no iteration of the dial loop raises
    [TransitionNotAllowed]. *)
Theorem invalid_event_raises (e : Event) (w : System)
    (Hinvalid : Phone.target e (current_state w) = None) :
  Phone.send e w = Raise (TransitionNotAllowed e (current_state w)) w
  ∧ (∀ v i, ∃ v', Phone._get_earpiece_iter i v = Ok tt v')
  ∧ (∀ v i l e' s v', Phone._get_dial_iter i l v ≠ Raise (TransitionNotAllowed e' s) v').
Proof.
  split; [unfold Phone.send; rewrite Hinvalid; reflexivity|].
  split.
  - intros v i. apply get_earpiece_iter_ok.
  - intros v i l e' s v'. apply get_dial_iter_no_transition_fault.
Qed.

Lemma invalid_event_raises_witness :
  Phone.send (Dial "5") (at_rest sounds)
    = Raise (TransitionNotAllowed (Dial "5") (current_state (at_rest sounds)))
            (at_rest sounds)
  ∧ (∀ v i, ∃ v', Phone._get_earpiece_iter i v = Ok tt v')
  ∧ (∀ v i l e' s v', Phone._get_dial_iter i l v ≠ Raise (TransitionNotAllowed e' s) v').
Proof. apply (invalid_event_raises (Dial "5") (at_rest sounds)). reflexivity. Defined.

(** C3 (as stated) fails: [dial] sent in [Idle] is a fault, not a silent
    no-op, and the gap check of [_get_dial] (lines 173-177), run on a
    system that is in [Idle], lets it through to the loop. *)
Lemma dial_while_idle_is_a_fault :
  Phone.dial "5" (at_rest sounds)
    = Raise (TransitionNotAllowed (Dial "5") Idle) (at_rest sounds)
  ∧ Phone.flush (mkDialInput false 0 2) (mkLocals 0 false false [5] 0) (at_rest sounds)
    = Raise (TransitionNotAllowed (Dial "5") Idle) (at_rest sounds)
  ∧ ∀ u, Phone.dial "5" (at_rest sounds) ≠ Ok u (at_rest sounds).
Proof. split; [reflexivity|]. split; [reflexivity|]. intros u. discriminate. Qed.

(** ** The pulse decoder: one iteration of [_get_dial] *)

(** Outside [Dialing] an iteration does nothing (line 146). *)
Lemma iter_not_dialing i l w :
  current_state w ≠ Dialing → Phone._get_dial_iter i l w = Ok l w.
Proof.
  intros Hn. unfold Phone._get_dial_iter, bind, get_state.
  rewrite bool_decide_false by assumption. reflexivity.
Qed.

(** Rising edge (lines 150-154). *)
Lemma iter_rising i l w :
  current_state w = Dialing → pulse i = true → last l = false →
  Phone._get_dial_iter i l w
  = Ok (mkLocals (num l + 1) true true (dialed_numbers l) (last_dial_time l))
       (emit (Sleep PULSE_SECONDS) w).
Proof.
  intros Hd Hp Hl. unfold Phone._get_dial_iter, bind, get_state.
  rewrite bool_decide_true by assumption. rewrite Hp, Hl. reflexivity.
Qed.

(** Falling edge (lines 156-159). *)
Lemma iter_falling i l w :
  current_state w = Dialing → pulse i = false → last l = true →
  Phone._get_dial_iter i l w
  = Ok (mkLocals (num l) (prnt l) false (dialed_numbers l) (last_dial_time l))
       (emit (Sleep PULSE_SECONDS) w).
Proof.
  intros Hd Hp Hl. unfold Phone._get_dial_iter, bind, get_state.
  rewrite bool_decide_true by assumption. rewrite Hp, Hl. reflexivity.
Qed.

(** A sample at the level of the previous one with no pulse registered
    goes straight to the gap check. *)
Lemma iter_steady i l w :
  current_state w = Dialing → pulse i = last l →
  (pulse i = true ∨ prnt l = false) →
  Phone._get_dial_iter i l w = Phone.flush i l w.
Proof.
  intros Hd Hp Hor. unfold Phone._get_dial_iter, bind at 1, get_state.
  rewrite bool_decide_true by assumption. simpl. rewrite <- Hp.
  destruct (pulse i), (prnt l); simpl; try reflexivity.
  destruct Hor; discriminate.
Qed.

(** A stable-inactive sample after a registered pulse finalizes a digit and
    then goes to the gap check (lines 161-177). *)
Lemma iter_finalizing i l w :
  current_state w = Dialing → pulse i = false → last l = false → prnt l = true →
  Phone._get_dial_iter i l w = (l1 <- Phone.finalize i l ;; Phone.flush i l1) w.
Proof.
  intros Hd Hp Hl Hpr. unfold Phone._get_dial_iter, bind at 1, get_state.
  rewrite bool_decide_true by assumption. rewrite Hp, Hl, Hpr. reflexivity.
Qed.

(** The test of line 174 on the clock. *)
Lemma gap_elapsed_true now before :
  Phone.gap_elapsed now before = true ↔ (1.5 < now - before)%Q.
Proof.
  unfold Phone.gap_elapsed. rewrite negb_true_iff.
  split.
  - intros H. apply Qnot_le_lt. intros Hle.
    apply Qle_bool_iff in Hle. congruence.
  - intros H. destruct (Qle_bool (now - before) 1.5) eqn:E; [|reflexivity].
    apply Qle_bool_iff in E. exfalso. exact (Qlt_not_le _ _ H E).
Qed.

Lemma gap_elapsed_false now before :
  Phone.gap_elapsed now before = false ↔ (now - before <= 1.5)%Q.
Proof.
  unfold Phone.gap_elapsed. rewrite negb_false_iff. apply Qle_bool_iff.
Qed.

Lemma nonempty_true {A} (l : list A) : Phone.nonempty l = true ↔ l ≠ [].
Proof. destruct l; simpl; split; congruence. Qed.

(** The gap check when it does not fire. *)
Lemma flush_quiet i l w :
  Phone.gap_elapsed (clock_check i) (last_dial_time l) = false
  ∨ dialed_numbers l = [] →
  Phone.flush i l w = Ok l w.
Proof.
  intros [H| H]; unfold Phone.flush; rewrite H; simpl; [reflexivity|].
  rewrite andb_false_r. reflexivity.
Qed.

Lemma dial_loop_app a b l w :
  Phone.dial_loop (a ++ b) l w = bind (Phone.dial_loop a l) (Phone.dial_loop b) w.
Proof.
  revert l w. induction a as [|i a IH]; intros l w; simpl; [reflexivity|].
  unfold bind in *.
  destruct (Phone._get_dial_iter i l w) as [l1 w1|e w1]; [|reflexivity].
  apply IH.
Qed.

(** ** Pulse trains *)

(** The system [w] with [es] appended to its trace. *)
Definition traced (es : list effect) (w : System) : System :=
  mkSystem (current_state w) (audio_player w) (audio_recorder w) (fs w) (next_pid w)
           (trace w ++ es).

Lemma emit_traced e w : emit e w = traced [e] w.
Proof. reflexivity. Qed.

Lemma traced_traced a b w : traced b (traced a w) = traced (a ++ b) w.
Proof. unfold traced. simpl. rewrite app_assoc. reflexivity. Qed.

Lemma traced_nil w : traced [] w = w.
Proof. destruct w. unfold traced. simpl. rewrite app_nil_r. reflexivity. Qed.

(** [n] pulses: the sample levels of [n] rising and falling edges. *)
Definition pulses (n : nat) : list bool := concat (replicate n [true; false]).

(** A train of [n] pulses read while [Dialing] adds [n] to the count, leaves
    the contact inactive and a pulse registered, and costs two settle
    delays per pulse; nothing else happens. *)
Lemma pulse_train_counts n : ∀ train l w,
  current_state w = Dialing → last l = false →
  map pulse train = pulses n →
  Phone.dial_loop train l w
  = Ok (mkLocals (num l + n) (prnt l || bool_decide (0 < n)) false
          (dialed_numbers l) (last_dial_time l))
       (traced (replicate (2 * n) (Sleep PULSE_SECONDS)) w).
Proof.
  induction n as [|n IH]; intros train l w Hd Hl Htrain.
  - destruct train; [|discriminate]. simpl.
    rewrite traced_nil. destruct l as [k p la acc t]. simpl in *. subst la.
    unfold ret. rewrite Nat.add_0_r, orb_false_r. reflexivity.
  - destruct train as [|i1 [|i2 rest]]; try discriminate.
    unfold pulses in Htrain. simpl in Htrain.
    injection Htrain as H1 H2 Hrest.
    simpl. unfold bind at 1.
    rewrite (iter_rising i1 l w Hd H1 Hl).
    unfold bind at 1.
    rewrite iter_falling by (simpl; auto).
    simpl.
    rewrite IH by (simpl; auto). simpl.
    rewrite !emit_traced, !traced_traced.
    rewrite orb_true_r.
    replace (num l + 1 + n) with (num l + S n) by lia.
    replace (n + S (n + 0)) with (S (n + (n + 0))) by lia.
    reflexivity.
Qed.

(** The system in which the examples dial: the handset has just been lifted. *)
Definition off_hook : System := final (Phone.pickup (at_rest sounds)).

(** Samples of the pulse contact, with the clock readings left at 0 (the
    iterations that see an edge do not read the clock). *)
Definition sample (b : bool) : DialInput := mkDialInput b 0 0.

(** C1 (as the code has it) -- a train of [n >= 1] pulses followed by one
    stable-inactive sample, read in [Dialing] by a decoder with nothing in
    progress: the digit appended to the accumulator is 0 when [n] is 10 and
    [n] itself otherwise, which for [n] from 1 to 10 is [n mod 10].  (The
    clock hypothesis keeps the gap check of the same iteration from firing.) *)
Theorem pulse_train_decodes (n : nat) (train : list DialInput) (stable : DialInput)
    (acc : list nat) (t : Q) (w : System)
    (Hdialing : current_state w = Dialing)
    (Hcount : 1 ≤ n)
    (Htrain : map pulse train = pulses n)
    (Hstable : pulse stable = false)
    (Hquick : (clock_check stable - clock_finalize stable <= 1.5)%Q) :
  ∃ w', Phone.dial_loop (train ++ [stable]) (mkLocals 0 false false acc t) w
        = Ok (mkLocals 0 false false (acc ++ [if n =? 10 then 0 else n])
                (clock_finalize stable)) w'
        ∧ current_state w' = Dialing
        ∧ (n ≤ 10 → (if n =? 10 then 0 else n) = n mod 10).
Proof.
  assert (Hmod : n ≤ 10 → (if n =? 10 then 0 else n) = n mod 10).
  { intros Hle. destruct (Nat.eqb_spec n 10) as [->|Hne]; [reflexivity|].
    symmetry. apply Nat.mod_small. lia. }
  rewrite dial_loop_app. unfold bind at 1.
  rewrite (pulse_train_counts n train (mkLocals 0 false false acc t) w
             Hdialing eq_refl Htrain). simpl.
  rewrite bool_decide_true by lia.
  unfold bind at 1.
  rewrite iter_finalizing by (simpl; auto).
  unfold bind at 1.
  match goal with |- context [Phone.finalize ?i ?l ?v] =>
    destruct (finalize_ok i l v) as (w1 & -> & Hs1) end.
  simpl. rewrite flush_quiet by (left; simpl; apply gap_elapsed_false; exact Hquick).
  exists w1. split; [reflexivity|]. split; [simpl in Hs1; congruence|].
  exact Hmod.
Qed.

Lemma pulse_train_decodes_witness :
  ∃ w', Phone.dial_loop (map sample (pulses 10) ++ [mkDialInput false 3 3.2])
          (mkLocals 0 false false [7] 0) off_hook
        = Ok (mkLocals 0 false false ([7] ++ [if 10 =? 10 then 0 else 10]) 3) w'
        ∧ current_state w' = Dialing
        ∧ (10 ≤ 10 → (if 10 =? 10 then 0 else 10) = 10 mod 10).
Proof.
  apply (pulse_train_decodes 10 (map sample (pulses 10)) (mkDialInput false 3 3.2)
           [7] 0 off_hook).
  - reflexivity.
  - lia.
  - reflexivity.
  - reflexivity.
  - vm_compute. discriminate.
Defined.

(** C1 (as stated) fails above ten: eleven pulses are decoded to 11, which
    is not [11 mod 10]. *)
Lemma eleven_pulses_decode_to_eleven :
  ∃ w', Phone.dial_loop (map sample (pulses 11) ++ [sample false])
          (mkLocals 0 false false [] 0) off_hook
        = Ok (mkLocals 0 false false [11] 0) w'
        ∧ [11] ≠ [11 mod 10].
Proof. eexists. split; [vm_compute; reflexivity|]. discriminate. Qed.

(** ** Finalizing a digit asks the player to stop *)

(** What [stop] does to the player, in full. *)
Lemma stop_player_spec w :
  ∃ w1, Audio.stop Player w = Ok tt w1
        ∧ current_process (audio_player w1) = None
        ∧ current_state w1 = current_state w
        ∧ (current_process (audio_player w) = None → w1 = w)
        ∧ (∀ p, current_process (audio_player w) = Some p →
                trace w1 = trace w ++ [Terminate p; Wait p]).
Proof.
  unfold Audio.stop. simpl.
  destruct (current_process (audio_player w)) as [p|] eqn:E.
  - eexists. split; [reflexivity|]. simpl.
    repeat split; try discriminate.
    intros q [= <-]. rewrite <- app_assoc. reflexivity.
  - exists w. repeat split; auto. intros p. discriminate.
Qed.

(** C10 -- an iteration of the dial loop that finalizes a digit (state
    [Dialing], inactive sample, inactive previous sample, pulse registered)
    begins by calling [stop] on the player, before it logs the digit,
    appends it and makes the gap check: whatever the gap check then does,
    the player's [current_process], if it held a process, has been
    terminated and waited for, and is empty. *)
Theorem finalizing_requests_playback_stop (i : DialInput) (l : DialLocals) (w : System)
    (Hdialing : current_state w = Dialing)
    (Hsample : pulse i = false)
    (Hlast : last l = false)
    (Hprnt : prnt l = true) :
  ∃ w1 digit,
    Audio.stop Player w = Ok tt w1
    ∧ digit = (if num l =? 10 then 0 else num l)
    ∧ Phone._get_dial_iter i l w
      = Phone.flush i
          (mkLocals 0 false false (dialed_numbers l ++ [digit]) (clock_finalize i))
          (emit (Log DEBUG ("get_dial: dialed " +:+ pretty digit +:+ ".")) w1)
    ∧ current_state w1 = Dialing
    ∧ current_process (audio_player w1) = None
    ∧ (∀ p, current_process (audio_player w) = Some p →
            trace w1 = trace w ++ [Terminate p; Wait p]).
Proof.
  destruct (stop_player_spec w) as (w1 & Hstop & Hnone & Hs & _ & Htr).
  exists w1, (if num l =? 10 then 0 else num l).
  split; [exact Hstop|]. split; [reflexivity|].
  split.
  - rewrite iter_finalizing by assumption.
    unfold bind at 1. unfold Phone.finalize. unfold bind at 1.
    rewrite Hstop. reflexivity.
  - split; [congruence|]. split; assumption.
Qed.

Lemma finalizing_requests_playback_stop_witness :
  ∃ w1 digit,
    Audio.stop Player off_hook = Ok tt w1
    ∧ digit = (if 3 =? 10 then 0 else 3)
    ∧ Phone._get_dial_iter (mkDialInput false 1 1) (mkLocals 3 true false [] 0) off_hook
      = Phone.flush (mkDialInput false 1 1)
          (mkLocals 0 false false ([] ++ [digit]) 1)
          (emit (Log DEBUG ("get_dial: dialed " +:+ pretty digit +:+ ".")) w1)
    ∧ current_state w1 = Dialing
    ∧ current_process (audio_player w1) = None
    ∧ (∀ p, current_process (audio_player off_hook) = Some p →
            trace w1 = trace off_hook ++ [Terminate p; Wait p]).
Proof.
  apply (finalizing_requests_playback_stop (mkDialInput false 1 1)
           (mkLocals 3 true false [] 0) off_hook); reflexivity.
Defined.

(** ** The inter-digit gap check *)

(** A [dial] sent in [Dialing] shows in the log with its number. *)
Lemma dial_logs_number number w :
  current_state w = Dialing →
  Log INFO ("Dealed: " +:+ number) ∈ trace (final (Phone.dial number w)).
Proof.
  destruct w as [s [pp pr] rec f n t]. simpl. intros ->.
  unfold Phone.dial, Phone.send. simpl.
  unfold Phone.on_exit_dialing, Phone.on_enter_answering, AudioPlayer.play, bind, log,
    ret, raise, Audio.stop, Audio.wait, Audio._execute, path_exists, Path. simpl.
  destruct pp; simpl; destruct (f !! "beep-long.mp3"); simpl;
    rewrite ?elem_of_app, ?list_elem_of_singleton; tauto.
Qed.

(** The locals at line 172 of an iteration that saw no edge. *)
Definition at_gap_check (i : DialInput) (l : DialLocals) : DialLocals :=
  if negb (pulse i) && prnt l
  then mkLocals 0 false false
         (dialed_numbers l ++ [if num l =? 10 then 0 else num l]) (clock_finalize i)
  else l.

(** C2 (as the code has it) -- an iteration that is not in [Dialing], or that
    sees an edge, returns with the accumulator and the machine as they were.
    An iteration in [Dialing] that sees no edge reaches the gap check with
    the accumulator either unchanged or extended at its end by the digit it
    has just finalized; there, [dial] is sent exactly when more than 1.5 s
    lie between the clock and [last_dial_time] and the accumulator is not
    empty.  It is sent once, with the decimal digits of the accumulator
    joined in order, and the machine goes to [Answering] with the number in
    the log; the accumulator is emptied and [last_dial_time] set when the
    call returns.  Otherwise the iteration returns with the machine still
    in [Dialing]. *)
Theorem gap_check_sends_dial (i : DialInput) (l : DialLocals) (w : System) :
  (current_state w ≠ Dialing ∨ pulse i ≠ last l →
     ∃ l' w', Phone._get_dial_iter i l w = Ok l' w'
              ∧ dialed_numbers l' = dialed_numbers l
              ∧ last_dial_time l' = last_dial_time l
              ∧ current_state w' = current_state w)
  ∧ (current_state w = Dialing → pulse i = last l →
     let l1 := at_gap_check i l in
     let r := Phone._get_dial_iter i l w in
     ∃ w1, current_state w1 = Dialing
       ∧ ((1.5 < clock_check i - last_dial_time l1)%Q ∧ dialed_numbers l1 ≠ [] →
            r = (Phone.dial (Phone.join_digits (dialed_numbers l1)) ;;
                 ret (mkLocals (num l1) (prnt l1) (last l1) [] (clock_check i))) w1
            ∧ current_state (final r) = Answering
            ∧ Log INFO ("Dealed: " +:+ Phone.join_digits (dialed_numbers l1))
                ∈ trace (final r))
       ∧ (¬ ((1.5 < clock_check i - last_dial_time l1)%Q ∧ dialed_numbers l1 ≠ []) →
            r = Ok l1 w1)).
Proof.
  split.
  - intros [Hn|Hedge].
    + rewrite iter_not_dialing by assumption.
      eexists _, _. split; [reflexivity|]. auto.
    + destruct (decide (current_state w = Dialing)) as [Hd|Hn];
        [|rewrite iter_not_dialing by assumption;
          eexists _, _; split; [reflexivity|]; auto].
      destruct (pulse i) eqn:Hp, (last l) eqn:Hl; try congruence.
      * rewrite iter_rising by assumption.
        eexists _, _. split; [reflexivity|]. simpl. auto.
      * rewrite iter_falling by assumption.
        eexists _, _. split; [reflexivity|]. simpl. auto.
  - intros Hd Hsteady l1 r.
    assert (Hline : ∃ w1, current_state w1 = Dialing ∧ r = Phone.flush i l1 w1).
    { subst r l1. unfold at_gap_check.
      destruct (negb (pulse i) && prnt l) eqn:Hfin.
      - apply andb_true_iff in Hfin as [Hp Hpr]. apply negb_true_iff in Hp.
        rewrite iter_finalizing by congruence.
        unfold bind at 1.
        destruct (finalize_ok i l w) as (w1 & -> & Hs).
        exists w1. split; [congruence|reflexivity].
      - exists w. split; [assumption|].
        apply iter_steady; [assumption..|].
        destruct (pulse i), (prnt l); simpl in Hfin; auto; discriminate. }
    destruct Hline as (w1 & Hs1 & Hr). exists w1. split; [assumption|].
    rewrite Hr. unfold Phone.flush. split.
    + intros [Hgap Hne].
      apply gap_elapsed_true in Hgap. apply nonempty_true in Hne.
      rewrite Hgap, Hne. simpl. split; [reflexivity|].
      unfold bind.
      pose proof (dial_logs_number (Phone.join_digits (dialed_numbers l1)) w1 Hs1) as Hlog.
      destruct (dial_raises_in_dialing (Phone.join_digits (dialed_numbers l1)) w1 Hs1)
        as (w2 & Hdial & Hs2 & _).
      rewrite Hdial in *. simpl in *. auto.
    + intros Hnot.
      destruct (Phone.gap_elapsed _ _ && Phone.nonempty _) eqn:Hc; [|reflexivity].
      exfalso. apply Hnot. apply andb_true_iff in Hc as [Hgap Hne].
      split; [apply gap_elapsed_true|apply nonempty_true]; assumption.
Qed.

Lemma gap_check_sends_dial_witness :
  let i := mkDialInput false 0 2 in
  let l := mkLocals 0 false false [1; 0; 3] 0 in
  let l1 := at_gap_check i l in
  let r := Phone._get_dial_iter i l off_hook in
  ∃ w1, current_state w1 = Dialing
    ∧ ((1.5 < clock_check i - last_dial_time l1)%Q ∧ dialed_numbers l1 ≠ [] →
         r = (Phone.dial (Phone.join_digits (dialed_numbers l1)) ;;
              ret (mkLocals (num l1) (prnt l1) (last l1) [] (clock_check i))) w1
         ∧ current_state (final r) = Answering
         ∧ Log INFO ("Dealed: " +:+ Phone.join_digits (dialed_numbers l1))
             ∈ trace (final r))
    ∧ (¬ ((1.5 < clock_check i - last_dial_time l1)%Q ∧ dialed_numbers l1 ≠ []) →
         r = Ok l1 w1).
Proof.
  exact (proj2 (gap_check_sends_dial (mkDialInput false 0 2)
                  (mkLocals 0 false false [1; 0; 3] 0) off_hook)
           eq_refl eq_refl).
Defined.

(** C2 (as stated) fails on an iteration that sees an edge: two seconds
    after the last digit, with digit 3 pending, a rising edge is counted,
    the loop sleeps and goes round again; nothing is sent and the digit is
    still pending.  The same holds for an iteration outside [Dialing]. *)
Lemma edge_iteration_skips_gap_check :
  let i := mkDialInput true 0 2 in
  let l := mkLocals 0 false false [3] 0 in
  (1.5 < clock_check i - last_dial_time l)%Q
  ∧ dialed_numbers l ≠ []
  ∧ Phone._get_dial_iter i l off_hook
    = Ok (mkLocals 1 true true [3] 0) (emit (Sleep PULSE_SECONDS) off_hook)
  ∧ current_state (emit (Sleep PULSE_SECONDS) off_hook) = Dialing
  ∧ Phone._get_dial_iter (mkDialInput false 0 2) l (at_rest sounds)
    = Ok l (at_rest sounds).
Proof.
  cbv zeta. split; [reflexivity|]. split; [discriminate|].
  split; [reflexivity|]. split; reflexivity.
Qed.

(** ** The decoder's locals across calls *)

(** While the machine is not in [Dialing], the dial loop goes round without
    touching its locals or the system. *)
Lemma dial_loop_not_dialing inputs l w :
  current_state w ≠ Dialing → Phone.dial_loop inputs l w = Ok l w.
Proof.
  intros Hn. induction inputs as [|i rest IH]; simpl; [reflexivity|].
  unfold bind. rewrite iter_not_dialing by assumption. exact IH.
Qed.

(** C7 (as the code has it) -- the count and the accumulator are locals of
    [_get_dial]; [hang_up] and [pickup] have no access to them, and the
    iterations made while the handset is down return them as they were.
    So whatever was pending when [hang_up] arrived is pending when
    [Dialing] is entered again. *)
Theorem pending_digits_survive_hang_up (between : list DialInput) (l : DialLocals)
    (w : System) (Hdialing : current_state w = Dialing) :
  ∃ w1 w2,
    Phone.hang_up w = Ok tt w1
    ∧ current_state w1 = Idle
    ∧ Phone.dial_loop between l w1 = Ok l w1
    ∧ Phone.pickup w1 = Ok tt w2
    ∧ current_state w2 = Dialing.
Proof.
  destruct (hang_up_ok w) as (w1 & Hup & Hidle & _).
  destruct (pickup_ok w1 Hidle) as (w2 & Hpick & Hd).
  exists w1, w2. split; [assumption|]. split; [assumption|].
  split; [|auto].
  apply dial_loop_not_dialing. rewrite Hidle. discriminate.
Qed.

Lemma pending_digits_survive_hang_up_witness :
  ∃ w1 w2,
    Phone.hang_up off_hook = Ok tt w1
    ∧ current_state w1 = Idle
    ∧ Phone.dial_loop [sample true; sample false] (mkLocals 2 true false [4; 1] 0) w1
      = Ok (mkLocals 2 true false [4; 1] 0) w1
    ∧ Phone.pickup w1 = Ok tt w2
    ∧ current_state w2 = Dialing.
Proof.
  apply (pending_digits_survive_hang_up [sample true; sample false]
           (mkLocals 2 true false [4; 1] 0) off_hook).
  reflexivity.
Defined.

(** C7 (as stated) fails: a caller dials 3 and hangs up before the gap has
    passed; the loop idles; the handset is lifted again; the first
    iteration of the new call finds [3] in the accumulator and sends
    [dial("3")]. *)
Lemma digit_survives_into_next_call :
  ∃ l w1 w2 w3,
    Phone.dial_loop (map sample (pulses 3) ++ [sample false])
      (mkLocals 0 false false [] 0) off_hook = Ok l w1
    ∧ dialed_numbers l = [3]
    ∧ Phone._get_earpiece_iter (mkHookInput true true) w1 = Ok tt w2
    ∧ current_state w2 = Idle
    ∧ Phone.dial_loop [sample false; sample true] l w2 = Ok l w2
    ∧ Phone._get_earpiece_iter (mkHookInput true false) w2 = Ok tt w3
    ∧ current_state w3 = Dialing
    ∧ Log INFO "Dealed: 3"
        ∈ trace (final (Phone._get_dial_iter (mkDialInput false 0 9) l w3)).
Proof.
  eexists _, _, _, _.
  split; [vm_compute; reflexivity|]. split; [reflexivity|].
  split; [vm_compute; reflexivity|]. split; [reflexivity|].
  split; [vm_compute; reflexivity|].
  split; [vm_compute; reflexivity|]. split; [reflexivity|].
  vm_compute. set_solver.
Qed.

(** ** Recording file names *)

Lemma string_length_app (s t : string) :
  String.length (s +:+ t) = String.length s + String.length t.
Proof. induction s as [|a s IH]; simpl; [reflexivity|]. rewrite IH. reflexivity. Qed.

Lemma string_app_inj_r (s1 s2 t : string) : s1 +:+ t = s2 +:+ t → s1 = s2.
Proof.
  revert s2. induction s1 as [|a s1 IH]; intros [|b s2] H.
  - reflexivity.
  - apply (f_equal String.length) in H.
    rewrite !string_length_app in H. simpl in H. lia.
  - apply (f_equal String.length) in H.
    rewrite !string_length_app in H. simpl in H. lia.
  - change (String a (s1 +:+ t) = String b (s2 +:+ t)) in H.
    injection H as -> H. f_equal. apply IH. exact H.
Qed.

(** The name of recording number [index] in [folder_path]. *)
Definition mp3 (folder_path : string) (index : nat) : string :=
  path_join folder_path (pretty index +:+ ".mp3").

Global Instance mp3_inj folder_path : Inj (=) (=) (mp3 folder_path).
Proof.
  intros j k H. unfold mp3, path_join in H.
  apply String.app_inj in H. apply String.app_inj in H.
  apply string_app_inj_r in H. apply pretty_nat_inj in H. exact H.
Qed.

(** A recording's path is never the folder itself. *)
Lemma mp3_ne_folder folder_path index : mp3 folder_path index ≠ folder_path.
Proof.
  intros H. apply (f_equal String.length) in H.
  unfold mp3, path_join in H. rewrite !string_length_app in H. simpl in H. lia.
Qed.

(** What the search returns when it returns: the first index from [index]
    on whose file is absent. *)
Lemma get_unique_filename_from_spec fuel : ∀ index folder_path w filename,
  AudioRecorder.get_unique_filename_from fuel index folder_path w = Some filename →
  ∃ k, index ≤ k
       ∧ filename = mp3 folder_path k
       ∧ fs w !! mp3 folder_path k = None
       ∧ ∀ j, index ≤ j < k → is_Some (fs w !! mp3 folder_path j).
Proof.
  induction fuel as [|fuel IH]; intros index folder_path w filename H;
    simpl in H; [discriminate|].
  fold (mp3 folder_path index) in H. unfold path_exists in H.
  destruct (fs w !! mp3 folder_path index) as [nd|] eqn:E; simpl in H.
  - destruct (IH _ _ _ _ H) as (k & Hle & -> & Hnone & Hbelow).
    exists k. split; [lia|]. split; [reflexivity|]. split; [assumption|].
    intros j Hj. destruct (decide (j = index)) as [->|Hne].
    + rewrite E. eauto.
    + apply Hbelow. lia.
  - injection H as <-. exists index. split; [lia|]. split; [reflexivity|].
    split; [assumption|]. intros j Hj. lia.
Qed.

(** When the search runs out of fuel, every index it tried is taken. *)
Lemma get_unique_filename_from_none fuel : ∀ index folder_path w,
  AudioRecorder.get_unique_filename_from fuel index folder_path w = None →
  ∀ j, index ≤ j < index + fuel → is_Some (fs w !! mp3 folder_path j).
Proof.
  induction fuel as [|fuel IH]; intros index folder_path w H j Hj; [lia|].
  simpl in H. fold (mp3 folder_path index) in H. unfold path_exists in H.
  destruct (fs w !! mp3 folder_path index) as [nd|] eqn:E; simpl in H;
    [|discriminate].
  destruct (decide (j = index)) as [->|Hne]; [rewrite E; eauto|].
  apply (IH _ _ _ H). lia.
Qed.

(** The loop of [get_unique_filename] ends: a file system with [n] entries
    cannot hold all of [1.mp3] ... [(n+1).mp3]. *)
Lemma get_unique_filename_total folder_path w :
  ∃ filename,
    AudioRecorder.get_unique_filename_from (S (size (fs w))) 1 folder_path w
    = Some filename.
Proof.
  destruct (AudioRecorder.get_unique_filename_from _ _ _ _) as [filename|] eqn:E;
    [eauto|exfalso].
  pose proof (get_unique_filename_from_none _ _ _ _ E) as Hall.
  set (n := size (fs w)) in *.
  set (names := mp3 folder_path <$> seq 1 (S n)).
  assert (Hsub : (list_to_set names : gset string) ⊆ dom (fs w)).
  { intros p Hp. apply elem_of_list_to_set in Hp.
    apply list_elem_of_fmap in Hp as (j & -> & Hj).
    apply elem_of_seq in Hj. apply elem_of_dom. apply Hall. lia. }
  apply subseteq_size in Hsub.
  rewrite size_list_to_set in Hsub
    by (apply NoDup_fmap_2; [apply _|apply NoDup_seq]).
  rewrite size_dom in Hsub. subst names n.
  rewrite length_fmap, length_seq in Hsub. lia.
Qed.

(** C8 -- [record(number)], when [number] is not the name of a regular
    file: the directory [number] exists afterwards (created if it was
    absent), and one [rec] process is started whose output file is
    [number/k.mp3] for the smallest [k >= 1] for which that file did not
    exist; every file that existed is still there, and the chosen one was
    not among them.  The search always ends. *)
Theorem record_takes_first_unused (number : string) (w : System)
    (Hnotfile : fs w !! number ≠ Some File) :
  ∃ k w',
    AudioRecorder.record number w = Ok Recorder w'
    ∧ 1 ≤ k
    ∧ fs w !! mp3 number k = None
    ∧ (∀ j, 1 ≤ j < k → is_Some (fs w !! mp3 number j))
    ∧ trace w' = trace w ++ [Spawn (next_pid w) ["rec"; "-t"; "mp3"; mp3 number k]]
    ∧ mp3 number k = number +:+ "/" +:+ pretty k +:+ ".mp3"
    ∧ fs w' = <[number := Dir]> (fs w)
    ∧ (∀ p, is_Some (fs w !! p) → fs w' !! p = fs w !! p).
Proof.
  unfold AudioRecorder.record, Path.
  assert (Hmk : ∃ w1, mkdir number w = Ok tt w1
            ∧ fs w1 = <[number := Dir]> (fs w)
            ∧ trace w1 = trace w ∧ next_pid w1 = next_pid w).
  { unfold mkdir. destruct (fs w !! number) as [[|]|] eqn:E.
    - congruence.
    - exists w. split; [reflexivity|]. rewrite insert_id by assumption. auto.
    - eexists. split; [reflexivity|]. simpl. auto. }
  destruct Hmk as (w1 & Hmkdir & Hfs1 & Htr1 & Hpid1).
  unfold bind at 1. rewrite Hmkdir.
  unfold bind at 1. unfold AudioRecorder.get_unique_filename.
  destruct (get_unique_filename_total number w1) as (filename & Hsome).
  rewrite Hsome.
  destruct (get_unique_filename_from_spec _ _ _ _ _ Hsome)
    as (k & Hk & -> & Hfree & Hbelow).
  assert (Hsame : ∀ j, fs w1 !! mp3 number j = fs w !! mp3 number j).
  { intros j. rewrite Hfs1. apply lookup_insert_ne.
    intros Heq. exact (mp3_ne_folder number j (eq_sym Heq)). }
  exists k. eexists. split; [reflexivity|]. simpl.
  split; [assumption|]. split; [rewrite <- Hsame; assumption|].
  split; [intros j Hj; rewrite <- Hsame; auto|].
  split; [congruence|]. split; [reflexivity|]. split; [assumption|].
  intros p [nd Hp]. rewrite Hfs1.
  destruct (decide (number = p)) as [<-|Hne].
  - rewrite lookup_insert_eq. destruct nd; congruence.
  - apply lookup_insert_ne. assumption.
Qed.

(** A directory for the number 12 that holds two recordings. *)
Definition two_recordings : gmap string node :=
  {[ "12" := Dir; "12/1.mp3" := File; "12/2.mp3" := File ]}.

Lemma record_takes_first_unused_witness :
  ∃ k w',
    AudioRecorder.record "12" (at_rest two_recordings) = Ok Recorder w'
    ∧ 1 ≤ k
    ∧ fs (at_rest two_recordings) !! mp3 "12" k = None
    ∧ (∀ j, 1 ≤ j < k → is_Some (fs (at_rest two_recordings) !! mp3 "12" j))
    ∧ trace w' = trace (at_rest two_recordings)
                 ++ [Spawn (next_pid (at_rest two_recordings))
                       ["rec"; "-t"; "mp3"; mp3 "12" k]]
    ∧ mp3 "12" k = "12" +:+ "/" +:+ pretty k +:+ ".mp3"
    ∧ fs w' = <["12" := Dir]> (fs (at_rest two_recordings))
    ∧ (∀ p, is_Some (fs (at_rest two_recordings) !! p) →
            fs w' !! p = fs (at_rest two_recordings) !! p).
Proof.
  apply (record_takes_first_unused "12" (at_rest two_recordings)).
  vm_compute. discriminate.
Defined.

(** With [1.mp3] and [2.mp3] present the recording goes to [3.mp3]; in an
    absent directory it goes to [1.mp3]. *)
Example record_third :
  trace (final (AudioRecorder.record "12" (at_rest two_recordings)))
  = [Spawn 0 ["rec"; "-t"; "mp3"; "12/3.mp3"]]
  ∧ trace (final (AudioRecorder.record "0" (at_rest sounds)))
    = [Spawn 0 ["rec"; "-t"; "mp3"; "0/1.mp3"]]
  ∧ fs (final (AudioRecorder.record "0" (at_rest sounds))) !! "0" = Some Dir.
Proof. repeat split; vm_compute; reflexivity. Qed.

(** ** Systems reachable from rest *)

(** Sending an event keeps both [current_process] fields empty. *)
Lemma handles_stay_empty e w :
  handles_empty w → handles_empty (final (Phone.send e w)).
Proof.
  destruct w as [s [pp pr] [rp rr] f n t]. intros [Hp Hr]. simpl in *. subst pp rp.
  unfold handles_empty, Phone.send.
  destruct e, s; simpl; auto;
    cbv beta iota delta
      [bind ret raise log Phone.on_exit_idle Phone.on_exit_dialing Phone.on_enter_idle
       Phone.on_enter_dialing Phone.on_enter_answering AudioPlayer.dial AudioPlayer.play
       Audio.stop Audio.wait Audio._execute path_exists Path]; simpl; auto;
    match goal with |- context [f !! ?k] => destruct (f !! k); simpl; auto end.
Qed.

(** So does an iteration of the hook loop. *)
Lemma get_earpiece_iter_handles i w :
  handles_empty w → handles_empty (final (Phone._get_earpiece_iter i w)).
Proof.
  intros H. unfold Phone._get_earpiece_iter.
  destruct (notified i); simpl; [|assumption].
  destruct (earpiece_level i); simpl.
  - apply handles_stay_empty. assumption.
  - unfold bind at 1, sleep. unfold bind at 1, get_state.
    destruct (negb _); simpl; [assumption|].
    apply (handles_stay_empty Pickup (emit (Sleep 0.75) w)). assumption.
Qed.

(** And so does an iteration of the dial loop: the handles that [stop]
    looks at are empty in every system the two loops can reach from rest. *)
Lemma get_dial_iter_handles i l w :
  handles_empty w → handles_empty (final (Phone._get_dial_iter i l w)).
Proof.
  intros H. unfold Phone._get_dial_iter. unfold bind at 1, get_state.
  destruct (negb _); simpl; [assumption|].
  destruct (pulse i && xorb (pulse i) (last l)); [assumption|].
  destruct (negb (pulse i) && xorb (pulse i) (last l)); [assumption|].
  assert (Hflush : ∀ l1 w1, handles_empty w1 →
            handles_empty (final (Phone.flush i l1 w1))).
  { intros l1 w1 H1. unfold Phone.flush.
    destruct (_ && _); [|assumption].
    unfold bind, Phone.dial.
    pose proof (handles_stay_empty (Dial (Phone.join_digits (dialed_numbers l1))) w1 H1)
      as Hsend.
    destruct (Phone.send _ w1); assumption. }
  unfold bind at 1.
  destruct (negb (pulse i) && Bool.eqb (pulse i) (last l) && prnt l).
  - unfold Phone.finalize, bind at 1.
    rewrite stop_noop by (apply H). simpl. apply Hflush. assumption.
  - simpl. apply Hflush. assumption.
Qed.


(** * Further properties of the controller *)

(** ** Transitions of the table *)

Ltac run_callbacks :=
  cbv beta iota delta
    [bind ret raise log Phone.on_exit_idle Phone.on_exit_dialing Phone.on_enter_idle
     Phone.on_enter_dialing Phone.on_enter_answering AudioPlayer.dial AudioPlayer.play
     Audio.stop Audio.wait Audio._execute path_exists Path];
  simpl.

(** X1 -- an event sent in a state from which the table has a transition
    always leaves the machine in the target of that transition: the state
    is set before the entry action runs, so this holds for [dial] too,
    whose entry action raises.  [pickup], [answer] and [hang_up] return;
    [dial] is the only event whose transition raises. *)
Theorem valid_transition_reaches_target (e : Event) (w : System) (dest : CallState)
    (Hvalid : Phone.target e (current_state w) = Some dest) :
  current_state (final (Phone.send e w)) = dest
  ∧ match e with
    | Dial _ =>
        ∃ w', Phone.send e w
              = Raise (AttributeError "'NoneType' object has no attribute 'wait'") w'
    | _ => ∃ w', Phone.send e w = Ok tt w'
    end.
Proof.
  destruct w as [s [pp pr] [rp rr] f n t]. simpl in Hvalid.
  unfold Phone.send. simpl.
  destruct e, s; simpl in Hvalid; try discriminate;
    injection Hvalid as <-; simpl; run_callbacks;
    destruct pp, rp; simpl;
    try (match goal with |- context [f !! ?k] => destruct (f !! k); simpl end);
    (split; [reflexivity|eexists; reflexivity]).
Qed.

Lemma valid_transition_reaches_target_witness :
  current_state (final (Phone.send Answer (set_state Answering (at_rest sounds)))) = Idle
  ∧ ∃ w', Phone.send Answer (set_state Answering (at_rest sounds)) = Ok tt w'.
Proof.
  apply (valid_transition_reaches_target Answer (set_state Answering (at_rest sounds)) Idle).
  reflexivity.
Defined.

(** ** Playback *)

(** X2 -- lifting the handset when [dial.mp3] is missing: [play] logs the
    error and starts nothing, and the transition goes through all the same.
    The machine is in [Dialing], no process was started, terminated or
    waited for, and the audio objects and the file system are as before. *)
Theorem pickup_without_tone_file (w : System)
    (Hidle : current_state w = Idle)
    (Hmissing : fs w !! "dial.mp3" = None) :
  Phone.pickup w
  = Ok tt (set_state Dialing
             (traced [Log INFO "Phone picked up!";
                      Log INFO "Playing the wait tone meanwhile.";
                      Log ERROR "Audioplayer: File does not exist."] w)).
Proof.
  destruct w as [s pl rc f n t]. simpl in *. subst s.
  unfold Phone.pickup, Phone.send. simpl. run_callbacks.
  rewrite Hmissing. simpl. unfold set_state, traced, emit. simpl.
  rewrite <- ?app_assoc. reflexivity.
Qed.

Lemma pickup_without_tone_file_witness :
  Phone.pickup (at_rest ∅)
  = Ok tt (set_state Dialing
             (traced [Log INFO "Phone picked up!";
                      Log INFO "Playing the wait tone meanwhile.";
                      Log ERROR "Audioplayer: File does not exist."] (at_rest ∅))).
Proof. apply (pickup_without_tone_file (at_rest ∅)); reflexivity. Defined.

(** X3 -- two playbacks in a row.  [play] calls [stop] before it starts the
    new process, but the handle of the first process was put in
    [current_recording_process], so [stop] finds nothing: both processes are
    started, the first is never terminated, and the player remembers the
    second only. *)
Theorem play_twice_overlaps (a b : string) (w : System)
    (Hempty : current_process (audio_player w) = None)
    (Ha : is_Some (fs w !! a))
    (Hb : is_Some (fs w !! b)) :
  ∃ w', (AudioPlayer.play a ;; AudioPlayer.play b) w = Ok (Some Player) w'
        ∧ trace w' = trace w ++ [Spawn (next_pid w) ["play"; a];
                                 Spawn (S (next_pid w)) ["play"; b]]
        ∧ audio_player w' = mkAudio None (Some (S (next_pid w)))
        ∧ audio_recorder w' = audio_recorder w
        ∧ current_state w' = current_state w.
Proof.
  destruct w as [s [pp pr] rc f n t]. simpl in *. subst pp.
  destruct Ha as [na Ha], Hb as [nb Hb].
  unfold bind at 1. unfold AudioPlayer.play at 1. unfold path_exists, Path. simpl.
  rewrite Ha. simpl. run_callbacks.
  unfold AudioPlayer.play, path_exists, Path. simpl. rewrite Hb. simpl. run_callbacks.
  eexists. split; [reflexivity|]. simpl. rewrite <- ?app_assoc. auto.
Qed.

Lemma play_twice_overlaps_witness :
  ∃ w', (AudioPlayer.play "dial.mp3" ;; AudioPlayer.play "beep.mp3") (at_rest sounds)
        = Ok (Some Player) w'
        ∧ trace w' = trace (at_rest sounds)
                     ++ [Spawn (next_pid (at_rest sounds)) ["play"; "dial.mp3"];
                         Spawn (S (next_pid (at_rest sounds))) ["play"; "beep.mp3"]]
        ∧ audio_player w' = mkAudio None (Some (S (next_pid (at_rest sounds))))
        ∧ audio_recorder w' = audio_recorder (at_rest sounds)
        ∧ current_state w' = current_state (at_rest sounds).
Proof.
  apply (play_twice_overlaps "dial.mp3" "beep.mp3" (at_rest sounds)).
  - reflexivity.
  - vm_compute. eauto.
  - vm_compute. eauto.
Defined.

(** ** Shutdown *)

(** What [stop] emits for an audio object: its [current_process], if any,
    is terminated and waited for. *)
Definition kills (a : BaseAudio) : list effect :=
  match current_process a with
  | Some p => [Terminate p; Wait p]
  | None => []
  end.

(** X4 -- [Phone.stop] never raises.  It terminates what the player holds
    in [current_process], then what the recorder holds, and empties both;
    called again it changes nothing, not even the trace. *)
Theorem stop_is_idempotent (w : System) :
  ∃ w', Phone.stop w = Ok tt w'
        ∧ trace w' = trace w ++ kills (audio_player w) ++ kills (audio_recorder w)
        ∧ handles_empty w'
        ∧ current_state w' = current_state w
        ∧ Phone.stop w' = Ok tt w'.
Proof.
  destruct w as [s [pp pr] [rp rr] f n t].
  unfold Phone.stop, handles_empty, kills. run_callbacks.
  destruct pp, rp; simpl; eexists; (split; [reflexivity|]); simpl;
    rewrite <- ?app_assoc, ?app_nil_r; auto.
Qed.

(** ** The hook loop *)

(** The state the hook switch asks for: at rest, [Idle]; lifted, [Dialing]
    if the machine was in [Idle], and no change otherwise. *)
Definition hook_next (s : CallState) (i : HookInput) : CallState :=
  if notified i then
    if earpiece_level i then Idle
    else match s with Idle => Dialing | _ => s end
  else s.

Lemma get_earpiece_iter_state i w :
  ∃ w', Phone._get_earpiece_iter i w = Ok tt w'
        ∧ current_state w' = hook_next (current_state w) i.
Proof.
  unfold Phone._get_earpiece_iter, hook_next.
  destruct (notified i); simpl; [|eexists; split; reflexivity].
  destruct (earpiece_level i); simpl.
  - destruct (hang_up_ok w) as (w' & -> & Hs & _). eexists; split; [reflexivity|auto].
  - unfold bind at 1, sleep. unfold bind at 1, get_state. simpl.
    destruct (bool_decide_reflect (current_state w = Idle)) as [Hidle|Hnot]; simpl.
    + destruct (pickup_ok (emit (Sleep 0.75) w) Hidle) as (w' & -> & Hs).
      eexists; split; [reflexivity|]. rewrite Hidle. exact Hs.
    + eexists; split; [reflexivity|]. simpl.
      destruct (current_state w); congruence.
Qed.

(** X5 -- the hook loop never raises, whatever notifications and levels it
    is fed, and it drives the machine as the switch says: a notification
    with the handset at rest ends in [Idle] from any state, one with the
    handset lifted goes to [Dialing] from [Idle] and is ignored in
    [Dialing] and [Answering], and an empty queue changes nothing. *)
Theorem hook_loop_follows_switch (inputs : list HookInput) (w : System) :
  ∃ w', Phone._get_earpiece inputs w = Ok tt w'
        ∧ current_state w' = fold_left hook_next inputs (current_state w).
Proof.
  revert w. induction inputs as [|i rest IH]; intros w; simpl.
  - eexists. split; reflexivity.
  - unfold bind.
    destruct (get_earpiece_iter_state i w) as (w1 & -> & Hs1).
    destruct (IH w1) as (w' & Hrest & Hs'). exists w'.
    split; [assumption|]. rewrite Hs', Hs1. reflexivity.
Qed.

(** ** Nothing is ever terminated *)

Definition is_kill (e : effect) : bool :=
  match e with Terminate _ | Wait _ => true | _ => false end.

(** The [Terminate] and [Wait] events of a trace. *)
Definition kill_events (tr : list effect) : list effect := List.filter is_kill tr.

Lemma send_kills_nothing e w :
  handles_empty w →
  kill_events (trace (final (Phone.send e w))) = kill_events (trace w).
Proof.
  destruct w as [s [pp pr] [rp rr] f n t]. intros [Hp Hr]. simpl in *. subst pp rp.
  unfold kill_events, Phone.send.
  destruct e, s; simpl; auto; run_callbacks;
    try (match goal with |- context [f !! ?k] => destruct (f !! k); simpl end);
    rewrite ?List.filter_app; simpl; rewrite ?app_nil_r; reflexivity.
Qed.

Lemma get_earpiece_iter_kills_nothing i w :
  handles_empty w →
  kill_events (trace (final (Phone._get_earpiece_iter i w))) = kill_events (trace w).
Proof.
  intros H. unfold Phone._get_earpiece_iter.
  destruct (notified i); simpl; [|reflexivity].
  destruct (earpiece_level i); simpl.
  - apply send_kills_nothing. assumption.
  - unfold bind at 1, sleep. unfold bind at 1, get_state.
    assert (Hsleep : kill_events (trace (emit (Sleep 0.75) w)) = kill_events (trace w)).
    { unfold kill_events. simpl. rewrite List.filter_app. simpl.
      rewrite app_nil_r. reflexivity. }
    destruct (negb _); simpl; [assumption|].
    rewrite <- Hsleep.
    apply (send_kills_nothing Pickup (emit (Sleep 0.75) w)). assumption.
Qed.

(** X6 -- with both [current_process] fields empty, as they are at start-up,
    a run of the hook loop terminates and waits for no process, however
    many times the handset is lifted and put down, and leaves the fields
    empty: every dial tone it started is still running. *)
Theorem hook_loop_terminates_nothing (inputs : list HookInput) (w : System)
    (Hempty : handles_empty w) :
  ∃ w', Phone._get_earpiece inputs w = Ok tt w'
        ∧ handles_empty w'
        ∧ kill_events (trace w') = kill_events (trace w).
Proof.
  revert w Hempty. induction inputs as [|i rest IH]; intros w Hempty; simpl.
  - eexists. split; [reflexivity|]. auto.
  - unfold bind.
    pose proof (get_earpiece_iter_handles i w Hempty) as Hh.
    pose proof (get_earpiece_iter_kills_nothing i w Hempty) as Hk.
    destruct (get_earpiece_iter_ok i w) as (w1 & Hiter).
    rewrite Hiter in *. simpl in Hh, Hk.
    destruct (IH w1 Hh) as (w' & Hrest & Hh' & Hk'). exists w'.
    split; [assumption|]. split; [assumption|]. congruence.
Qed.

Lemma hook_loop_terminates_nothing_witness :
  ∃ w', Phone._get_earpiece
          [mkHookInput true false; mkHookInput false false; mkHookInput true true;
           mkHookInput true false] (at_rest sounds) = Ok tt w'
        ∧ handles_empty w'
        ∧ kill_events (trace w') = kill_events (trace (at_rest sounds)).
Proof.
  apply (hook_loop_terminates_nothing _ (at_rest sounds)). split; reflexivity.
Defined.

(** ** The dial loop as a whole *)

Definition no_wait : exn :=
  AttributeError "'NoneType' object has no attribute 'wait'".

(** An iteration either returns with the machine where it was, or it has
    sent [dial] from [Dialing] and raises from the entry action. *)
Lemma get_dial_iter_outcome i l w :
  match Phone._get_dial_iter i l w with
  | Ok _ w' => current_state w' = current_state w
  | Raise e w' =>
      e = no_wait ∧ current_state w = Dialing ∧ current_state w' = Answering
  end.
Proof.
  destruct (decide (current_state w = Dialing)) as [Hd|Hn];
    [|rewrite iter_not_dialing by assumption; reflexivity].
  assert (Hflush : ∀ l1 w1, current_state w1 = Dialing →
            match Phone.flush i l1 w1 with
            | Ok _ w' => current_state w' = Dialing
            | Raise e w' => e = no_wait ∧ current_state w' = Answering
            end).
  { intros l1 w1 H1. unfold Phone.flush. destruct (_ && _); [|assumption].
    unfold bind.
    destruct (dial_raises_in_dialing (Phone.join_digits (dialed_numbers l1)) w1 H1)
      as (w2 & -> & Hs2 & _). auto. }
  destruct (pulse i) eqn:Hp, (last l) eqn:Hl.
  - rewrite iter_steady by (auto; congruence).
    specialize (Hflush l w Hd). destruct (Phone.flush i l w); intuition congruence.
  - rewrite iter_rising by assumption. reflexivity.
  - rewrite iter_falling by assumption. reflexivity.
  - destruct (prnt l) eqn:Hpr.
    + rewrite iter_finalizing by assumption. unfold bind.
      destruct (finalize_ok i l w) as (w1 & -> & Hs1).
      specialize (Hflush (mkLocals 0 false false
                            (dialed_numbers l ++ [if num l =? 10 then 0 else num l])
                            (clock_finalize i)) w1 ltac:(congruence)).
      destruct (Phone.flush i _ w1); intuition congruence.
    + rewrite iter_steady by (auto; congruence).
      specialize (Hflush l w Hd). destruct (Phone.flush i l w); intuition congruence.
Qed.

Lemma dial_loop_outcome inputs : ∀ l w,
  match Phone.dial_loop inputs l w with
  | Ok _ w' => current_state w' = current_state w
  | Raise e w' =>
      e = no_wait ∧ current_state w = Dialing ∧ current_state w' = Answering
  end.
Proof.
  induction inputs as [|i rest IH]; intros l w; simpl; [reflexivity|].
  unfold bind. pose proof (get_dial_iter_outcome i l w) as Hi.
  destruct (Phone._get_dial_iter i l w) as [l1 w1|e w1]; [|assumption].
  specialize (IH l1 w1). destruct (Phone.dial_loop rest l1 w1); intuition congruence.
Qed.

(** X7 -- the dial thread cannot survive a dialed number.  A run of
    [_get_dial] has one of two ends: it never sent [dial], the machine is
    in the state it started in and the last thing done is the warning of
    the [else] branch; or it sent [dial] once, from [Dialing], the machine
    is in [Answering] and the thread is dead of the [AttributeError]
    raised in the entry action, the rest of its input unread. *)
Theorem dial_thread_ends_at_first_number (start : Q) (inputs : list DialInput)
    (w : System) :
  match Phone._get_dial start inputs w with
  | Ok _ w' =>
      current_state w' = current_state w
      ∧ ∃ tr, trace w' = tr ++ [Log WARNING "Pulser received signal."]
  | Raise e w' =>
      e = no_wait ∧ current_state w = Dialing ∧ current_state w' = Answering
  end.
Proof.
  unfold Phone._get_dial, bind.
  pose proof (dial_loop_outcome inputs (mkLocals 0 false false [] start) w) as H.
  destruct (Phone.dial_loop inputs _ w) as [l1 w1|e w1]; [|assumption].
  simpl. split; [assumption|]. eexists. reflexivity.
Qed.

Lemma get_dial_iter_kills_nothing i l w :
  handles_empty w →
  kill_events (trace (final (Phone._get_dial_iter i l w))) = kill_events (trace w).
Proof.
  intros H.
  assert (Hemit : ∀ e v, is_kill e = false →
            kill_events (trace (emit e v)) = kill_events (trace v)).
  { intros e v He. unfold kill_events. simpl. rewrite List.filter_app. simpl.
    rewrite He. apply app_nil_r. }
  unfold Phone._get_dial_iter. unfold bind at 1, get_state.
  destruct (negb _); simpl; [reflexivity|].
  destruct (pulse i && xorb (pulse i) (last l)); [apply Hemit; reflexivity|].
  destruct (negb (pulse i) && xorb (pulse i) (last l)); [apply Hemit; reflexivity|].
  assert (Hflush : ∀ l1 w1, handles_empty w1 →
            kill_events (trace (final (Phone.flush i l1 w1))) = kill_events (trace w1)).
  { intros l1 w1 H1. unfold Phone.flush.
    destruct (_ && _); [|reflexivity].
    unfold bind, Phone.dial.
    pose proof (send_kills_nothing (Dial (Phone.join_digits (dialed_numbers l1))) w1 H1)
      as Hsend.
    destruct (Phone.send _ w1); assumption. }
  unfold bind at 1.
  destruct (negb (pulse i) && Bool.eqb (pulse i) (last l) && prnt l).
  - unfold Phone.finalize, bind at 1.
    rewrite stop_noop by (apply H). simpl.
    rewrite Hflush by exact H. apply Hemit. reflexivity.
  - simpl. apply Hflush. assumption.
Qed.

(** X8 -- with both [current_process] fields empty, a run of the dial loop
    terminates and waits for no process: the [stop] of each finalized digit
    and the one of leaving [Dialing] find nothing to stop, so the dial tone
    keeps playing through dialing and into the prompt. *)
Theorem dial_loop_terminates_nothing (inputs : list DialInput) (l : DialLocals)
    (w : System) (Hempty : handles_empty w) :
  handles_empty (final (Phone.dial_loop inputs l w))
  ∧ kill_events (trace (final (Phone.dial_loop inputs l w))) = kill_events (trace w).
Proof.
  revert l w Hempty. induction inputs as [|i rest IH]; intros l w Hempty; simpl.
  - auto.
  - unfold bind.
    pose proof (get_dial_iter_handles i l w Hempty) as Hh.
    pose proof (get_dial_iter_kills_nothing i l w Hempty) as Hk.
    destruct (Phone._get_dial_iter i l w) as [l1 w1|e w1]; simpl in *; [|auto].
    destruct (IH l1 w1 Hh) as [Hh' Hk']. split; [assumption|congruence].
Qed.

Lemma dial_loop_terminates_nothing_witness :
  handles_empty
    (final (Phone.dial_loop (map sample (pulses 2) ++ [sample false; mkDialInput false 0 2])
              (mkLocals 0 false false [] 0) off_hook))
  ∧ kill_events
      (trace (final (Phone.dial_loop
                       (map sample (pulses 2) ++ [sample false; mkDialInput false 0 2])
                       (mkLocals 0 false false [] 0) off_hook)))
    = kill_events (trace off_hook).
Proof.
  apply (dial_loop_terminates_nothing _ (mkLocals 0 false false [] 0) off_hook).
  split; reflexivity.
Defined.

(** ** A contact that stays active *)

Lemma dial_loop_held_active inputs : ∀ l w,
  current_state w = Dialing → Forall (λ i, pulse i = true) inputs →
  last l = true → dialed_numbers l = [] →
  Phone.dial_loop inputs l w = Ok l w.
Proof.
  induction inputs as [|i rest IH]; intros l w Hd Hall Hl Hacc; simpl; [reflexivity|].
  apply Forall_cons in Hall as [Hi Hrest].
  unfold bind. rewrite iter_steady by (auto; congruence).
  rewrite flush_quiet by (right; assumption).
  apply IH; assumption.
Qed.

(** X9 -- a contact that goes active and stays active: however many samples
    are read, one pulse is counted (one settle delay), no digit is ever
    finalized, nothing is logged and nothing is sent.  There is no timeout
    for a pulse that does not end. *)
Theorem stuck_contact_counts_one_pulse (first : DialInput) (rest : list DialInput)
    (l : DialLocals) (w : System)
    (Hdialing : current_state w = Dialing)
    (Hactive : Forall (λ i, pulse i = true) (first :: rest))
    (Hlast : last l = false)
    (Hnone : dialed_numbers l = []) :
  Phone.dial_loop (first :: rest) l w
  = Ok (mkLocals (num l + 1) true true [] (last_dial_time l))
       (emit (Sleep PULSE_SECONDS) w).
Proof.
  apply Forall_cons in Hactive as [Hfirst Hrest].
  simpl. unfold bind. rewrite iter_rising by assumption. rewrite Hnone.
  apply dial_loop_held_active; auto.
Qed.

Lemma stuck_contact_counts_one_pulse_witness :
  Phone.dial_loop (sample true :: [sample true; mkDialInput true 5 9; sample true])
    (mkLocals 0 false false [] 0) off_hook
  = Ok (mkLocals (0 + 1) true true [] 0) (emit (Sleep PULSE_SECONDS) off_hook).
Proof.
  apply (stuck_contact_counts_one_pulse (sample true)
           [sample true; mkDialInput true 5 9; sample true]
           (mkLocals 0 false false [] 0) off_hook); try reflexivity.
  repeat constructor.
Defined.

(** ** Dialing a number *)

(** The pulses a rotary dial sends for a digit. *)
Definition pulses_of_digit (d : nat) : nat := if d =? 0 then 10 else d.

(** The samples of one dialed digit: its train of pulses, then a
    stable-inactive sample at which the clock of line 173 is at most 1.5 s
    past the clock of line 170. *)
Definition dials (d : nat) (seg : list DialInput) : Prop :=
  ∃ train stable,
    seg = train ++ [stable]
    ∧ map pulse train = pulses (pulses_of_digit d)
    ∧ pulse stable = false
    ∧ (clock_check stable - clock_finalize stable <= 1.5)%Q.

Lemma one_digit_decodes d seg acc t w :
  current_state w = Dialing → d ≤ 9 → dials d seg →
  ∃ t' w', Phone.dial_loop seg (mkLocals 0 false false acc t) w
           = Ok (mkLocals 0 false false (acc ++ [d]) t') w'
           ∧ current_state w' = Dialing
           ∧ (∃ i, i ∈ seg ∧ t' = clock_finalize i).
Proof.
  intros Hd Hle (train & stable & -> & Htrain & Hstable & Hquick).
  rewrite dial_loop_app. unfold bind at 1.
  rewrite (pulse_train_counts _ train (mkLocals 0 false false acc t) w
             Hd eq_refl Htrain). simpl.
  rewrite bool_decide_true
    by (unfold pulses_of_digit; destruct (Nat.eqb_spec d 0); lia).
  unfold bind at 1.
  rewrite iter_finalizing by (simpl; auto).
  unfold bind at 1.
  match goal with |- context [Phone.finalize ?i ?l ?v] =>
    destruct (finalize_ok i l v) as (w1 & -> & Hs1) end.
  simpl. rewrite flush_quiet by (left; simpl; apply gap_elapsed_false; exact Hquick).
  assert (Hdigit : (if pulses_of_digit d =? 10 then 0 else pulses_of_digit d) = d).
  { unfold pulses_of_digit. destruct (Nat.eqb_spec d 0) as [->|Hnz]; [reflexivity|].
    destruct (Nat.eqb_spec d 10); [lia|reflexivity]. }
  rewrite Hdigit.
  exists (clock_finalize stable), w1. split; [reflexivity|].
  split; [simpl in Hs1; congruence|].
  exists stable. split; [|reflexivity]. apply elem_of_app. right. constructor.
Qed.

Lemma digits_decode ds : ∀ segs acc t w,
  current_state w = Dialing → Forall (λ d, d ≤ 9) ds → Forall2 dials ds segs →
  ∃ t' w', Phone.dial_loop (concat segs) (mkLocals 0 false false acc t) w
           = Ok (mkLocals 0 false false (acc ++ ds) t') w'
           ∧ current_state w' = Dialing
           ∧ (ds = [] ∧ t' = t ∨ ∃ i, i ∈ concat segs ∧ t' = clock_finalize i).
Proof.
  induction ds as [|d ds IH]; intros segs acc t w Hd Hle Hsegs.
  - apply Forall2_nil_inv_l in Hsegs as ->. simpl.
    exists t, w. rewrite app_nil_r. auto.
  - apply Forall2_cons_inv_l in Hsegs as (seg & segs' & Hseg & Hsegs' & ->).
    apply Forall_cons in Hle as [Hle1 Hle'].
    simpl. rewrite dial_loop_app. unfold bind.
    destruct (one_digit_decodes d seg acc t w Hd Hle1 Hseg)
      as (t1 & w1 & -> & Hd1 & (i1 & Hi1 & Ht1)).
    destruct (IH segs' (acc ++ [d]) t1 w1 Hd1 Hle' Hsegs')
      as (t' & w' & Hrun & Hd' & Ht').
    exists t', w'. rewrite <- app_assoc in Hrun. simpl in Hrun.
    split; [exact Hrun|]. split; [assumption|].
    right. destruct Ht' as [[_ ->]|(i & Hi & ->)].
    + exists i1. split; [apply elem_of_app; auto|assumption].
    + exists i. split; [apply elem_of_app; auto|reflexivity].
Qed.

(** X10 -- dialing a number end to end.  The digits [ds] (each 0..9, a 0
    sent as ten pulses) are dialed one after the other, each followed by a
    stable-inactive sample, and then the contact is sampled inactive once
    more than 1.5 s after every earlier clock reading.  The loop decodes
    the digits in order and sends [dial] with their decimal string: the
    machine is in [Answering], the number is in the log, and the loop ends
    with the [AttributeError] of the entry action. *)
Theorem dialed_number_is_sent (ds : list nat) (segs : list (list DialInput))
    (gap : DialInput) (t : Q) (w : System)
    (Hdialing : current_state w = Dialing)
    (Hdigits : Forall (λ d, d ≤ 9) ds)
    (Hdialed : Forall2 dials ds segs)
    (Hsome : ds ≠ [])
    (Hinactive : pulse gap = false)
    (Hgap : Forall (λ i, (1.5 < clock_check gap - clock_finalize i)%Q) (concat segs)) :
  ∃ w', Phone.dial_loop (concat segs ++ [gap]) (mkLocals 0 false false [] t) w
        = Raise no_wait w'
        ∧ current_state w' = Answering
        ∧ Log INFO ("Dealed: " +:+ Phone.join_digits ds) ∈ trace w'.
Proof.
  rewrite dial_loop_app. unfold bind at 1.
  destruct (digits_decode ds segs [] t w Hdialing Hdigits Hdialed)
    as (t' & w1 & -> & Hd1 & Ht').
  simpl. unfold bind at 1.
  rewrite iter_steady by (simpl; auto).
  assert (Hlate : (1.5 < clock_check gap - t')%Q).
  { destruct Ht' as [[Hnil _]|(i & Hi & ->)]; [congruence|].
    rewrite Forall_forall in Hgap. apply Hgap. exact Hi. }
  unfold Phone.flush. simpl.
  apply gap_elapsed_true in Hlate. rewrite Hlate.
  replace (Phone.nonempty ds) with true
    by (symmetry; apply nonempty_true; assumption).
  simpl. unfold bind.
  pose proof (dial_logs_number (Phone.join_digits ds) w1 Hd1) as Hlog.
  destruct (dial_raises_in_dialing (Phone.join_digits ds) w1 Hd1)
    as (w2 & Hdial & Hs2 & _).
  rewrite Hdial in *. simpl in Hlog. exists w2. auto.
Qed.

Lemma dialed_number_is_sent_witness :
  ∃ w', Phone.dial_loop
          (concat [map sample (pulses 1) ++ [sample false];
                   map sample (pulses 10) ++ [sample false]]
           ++ [mkDialInput false 0 2])
          (mkLocals 0 false false [] 0) off_hook
        = Raise no_wait w'
        ∧ current_state w' = Answering
        ∧ Log INFO ("Dealed: " +:+ Phone.join_digits [1; 0]) ∈ trace w'.
Proof.
  apply (dialed_number_is_sent [1; 0]
           [map sample (pulses 1) ++ [sample false];
            map sample (pulses 10) ++ [sample false]]
           (mkDialInput false 0 2) 0 off_hook).
  - reflexivity.
  - repeat constructor.
  - repeat (apply Forall2_cons; split);
      [ exists (map sample (pulses 1)), (sample false)
      | exists (map sample (pulses 10)), (sample false)
      | apply Forall2_nil_2 ];
      (split; [reflexivity|]); (split; [reflexivity|]); (split; [reflexivity|]);
      vm_compute; discriminate.
  - discriminate.
  - reflexivity.
  - simpl. repeat (apply Forall_cons; split; [reflexivity|]). apply Forall_nil_2.
Defined.

(** ** The number string *)

Lemma string_app_empty_r (s : string) : s +:+ "" = s.
Proof. induction s as [|a s IH]; [reflexivity|]. change (String a (s +:+ "") = String a s). congruence. Qed.

Lemma join_digits_cons d ds :
  Phone.join_digits (d :: ds) = pretty d +:+ Phone.join_digits ds.
Proof.
  unfold Phone.join_digits. simpl. destruct (map pretty ds) eqn:E.
  - simpl. symmetry. apply string_app_empty_r.
  - reflexivity.
Qed.

(** A digit is written with one character. *)
Lemma pretty_digit d : d ≤ 9 → ∃ c, pretty d = String c "".
Proof.
  intros Hle.
  do 10 (destruct d as [|d]; [eexists; vm_compute; reflexivity|]). lia.
Qed.

(** X11 -- the number string of [dial] has one character per digit and
    names its digits: two lists of digits 0..9 that are joined to the same
    string are the same list.  (With entries above 9, which the decoder
    can produce, this is lost: [11] and [1; 1] are both joined to "11".) *)
Theorem join_digits_names_the_digits (ds ds' : list nat)
    (Hds : Forall (λ d, d ≤ 9) ds)
    (Hds' : Forall (λ d, d ≤ 9) ds') :
  String.length (Phone.join_digits ds) = length ds
  ∧ (Phone.join_digits ds = Phone.join_digits ds' → ds = ds')
  ∧ Phone.join_digits [11] = Phone.join_digits [1; 1].
Proof.
  split; [|split; [|reflexivity]].
  - induction Hds as [|d ds Hd Hds IH]; [reflexivity|].
    rewrite join_digits_cons. destruct (pretty_digit d Hd) as (c & ->).
    change (S (String.length (Phone.join_digits ds)) = S (length ds)). congruence.
  - revert ds' Hds'. induction Hds as [|d ds Hd Hds IH]; intros ds' Hds' Heq.
    + destruct Hds' as [|d' ds' Hd' Hds']; [reflexivity|].
      rewrite join_digits_cons in Heq. destruct (pretty_digit d' Hd') as (c & Hc).
      rewrite Hc in Heq. discriminate Heq.
    + destruct Hds' as [|d' ds' Hd' Hds'].
      * rewrite join_digits_cons in Heq. destruct (pretty_digit d Hd) as (c & Hc).
        rewrite Hc in Heq. discriminate Heq.
      * rewrite !join_digits_cons in Heq.
        destruct (pretty_digit d Hd) as (c & Hc).
        destruct (pretty_digit d' Hd') as (c' & Hc').
        rewrite Hc, Hc' in Heq.
        change (String c (Phone.join_digits ds) = String c' (Phone.join_digits ds'))
          in Heq.
        injection Heq as Hcc Hrest. subst c'.
        f_equal; [|apply IH; assumption].
        apply pretty_nat_inj. congruence.
Qed.

Lemma join_digits_names_the_digits_witness :
  String.length (Phone.join_digits [1; 0; 3]) = length [1; 0; 3]
  ∧ (Phone.join_digits [1; 0; 3] = Phone.join_digits [1; 0; 3] → [1; 0; 3] = [1; 0; 3])
  ∧ Phone.join_digits [11] = Phone.join_digits [1; 1].
Proof.
  apply (join_digits_names_the_digits [1; 0; 3] [1; 0; 3]);
    repeat constructor.
Defined.


(** * Start-up: [get_usb_audio_card], [replace_asoundrc_file], [main]

    Python strings are sequences of code points; they are lists of [N]
    here.  [strip()], [splitlines()], [in], indexing and [replace] are the
    methods of [str]: [isspace] and [islinebreak] are the two character
    classes they use.  The output of [aplay -l], decoded, is an input
    ([check_output] and [decode] are taken to succeed), and so is the home
    directory; the file that would be written is the result. *)

Definition text := list N.

(** A literal of the source, as text. *)
Definition lit (s : string) : text :=
  map Ascii.N_of_ascii (String.list_ascii_of_string s).

Inductive startup_exn :=
  | Exception (msg : string)
  | IndexError.

Inductive outcome (A : Type) :=
  | Return (a : A)
  | Raised (e : startup_exn).
Arguments Return {A} a.
Arguments Raised {A} e.

(** The code points [str.strip()] removes. *)
Definition isspace (c : N) : bool :=
  ((9 <=? c) && (c <=? 13) || (28 <=? c) && (c <=? 32)
   || (c =? 133) || (c =? 160) || (c =? 5760)
   || (8192 <=? c) && (c <=? 8202)
   || (c =? 8232) || (c =? 8233) || (c =? 8239) || (c =? 8287) || (c =? 12288))%N.

(** The code points at which [str.splitlines()] splits. *)
Definition islinebreak (c : N) : bool :=
  ((10 <=? c) && (c <=? 13) || (28 <=? c) && (c <=? 30)
   || (c =? 133) || (c =? 8232) || (c =? 8233))%N.

Fixpoint lstrip (s : text) : text :=
  match s with
  | [] => []
  | c :: rest => if isspace c then lstrip rest else s
  end.

Definition rstrip (s : text) : text := rev (lstrip (rev s)).

Definition strip (s : text) : text := rstrip (lstrip s).

(** [splitlines()], with [cur] the line read so far; a carriage return
    followed by a line feed is one line break. *)
Fixpoint splitlines_from (cur s : text) : list text :=
  match s with
  | [] => match cur with [] => [] | _ => [cur] end
  | c :: rest =>
      if islinebreak c then
        cur :: match rest with
               | c' :: rest' =>
                   if ((c =? 13) && (c' =? 10))%N then splitlines_from [] rest'
                   else splitlines_from [] rest
               | [] => splitlines_from [] rest
               end
      else splitlines_from (cur ++ [c]) rest
  end.

Definition splitlines (s : text) : list text := splitlines_from [] s.

Fixpoint startswith (prefix s : text) : bool :=
  match prefix, s with
  | [], _ => true
  | _ :: _, [] => false
  | a :: prefix', b :: s' => (a =? b)%N && startswith prefix' s'
  end.

(** [needle in hay] *)
Fixpoint contains (needle hay : text) : bool :=
  startswith needle hay
  || match hay with
     | [] => false
     | _ :: rest => contains needle rest
     end.

(** [hay.replace("###", new)]: occurrences are replaced from the left and
    what has been replaced is not looked at again. *)
Fixpoint replace_hashes (new hay : text) : text :=
  match hay with
  | a :: rest1 =>
      match rest1 with
      | b :: c :: rest3 =>
          if ((a =? 35) && (b =? 35) && (c =? 35))%N then new ++ replace_hashes new rest3
          else a :: replace_hashes new rest1
      | _ => a :: replace_hashes new rest1
      end
  | [] => []
  end.

Module Startup.

Definition marker : text := lit "USB Audio Device".

(** The [for] loop of [get_usb_audio_card] over the lines. *)
Fixpoint first_card (lines : list text) : outcome text :=
  match lines with
  | [] => Raised (Exception "No USB Audio Interface detected.")
  | line :: rest =>
      if contains marker line then
        match line !! 5 with
        | Some c => Return [c]
        | None => Raised IndexError
        end
      else first_card rest
  end.

Definition get_usb_audio_card (aplay_output : text) : outcome text :=
  first_card (splitlines (strip aplay_output)).

Definition nl : string := String (Ascii.ascii_of_nat 10) "".

(** The literal of lines 207-216. *)
Definition template : string :=
  nl +:+ "        pcm.!default {"
  +:+ nl +:+ "            type hw"
  +:+ nl +:+ "            card ###"
  +:+ nl +:+ "        }"
  +:+ nl +:+ "        ctl.!default {"
  +:+ nl +:+ "            type hw"
  +:+ nl +:+ "            card ###"
  +:+ nl +:+ "        }"
  +:+ nl +:+ "    ".

(** [replace_asoundrc_file]: the result is the path and the content of the
    file written. *)
Definition replace_asoundrc_file (home : string) (soundcard : text)
    (aplay_output : text) : outcome (string * text) :=
  let content := replace_hashes soundcard (strip (lit template)) in
  let asoundrc_file_path := path_join home ".asoundrc" in
  match get_usb_audio_card aplay_output with
  | Raised e => Raised e
  | Return soundcard' => Return (asoundrc_file_path, content)
  end.

(** The second statement of [main]; [aplay -l] is run twice, once for the
    argument and once inside [replace_asoundrc_file]. *)
Definition main_asoundrc (home : string) (first_output second_output : text)
    : outcome (string * text) :=
  match get_usb_audio_card first_output with
  | Raised e => Raised e
  | Return soundcard => replace_asoundrc_file home soundcard second_output
  end.

End Startup.

(** ** Text: occurrences, stripping, lines *)

(** [needle] occurs in [hay]. *)
Definition occurs (needle hay : text) : Prop :=
  ∃ pre post, hay = pre ++ needle ++ post.

Lemma startswith_spec prefix : ∀ s,
  startswith prefix s = true ↔ ∃ post, s = prefix ++ post.
Proof.
  induction prefix as [|a prefix IH]; intros s; simpl.
  - split; [eauto|reflexivity].
  - destruct s as [|b s].
    + split; [discriminate|]. intros (post & H). discriminate.
    + rewrite andb_true_iff, N.eqb_eq, IH. split.
      * intros (-> & post & ->). eauto.
      * intros (post & H). injection H as -> ->. eauto.
Qed.

Lemma contains_spec needle : ∀ hay, contains needle hay = true ↔ occurs needle hay.
Proof.
  induction hay as [|c hay IH].
  - simpl. rewrite orb_false_r, startswith_spec. split.
    + intros (post & H). exists [], post. exact H.
    + intros (pre & post & H). destruct pre; [eauto|discriminate].
  - simpl. rewrite orb_true_iff, startswith_spec, IH. split.
    + intros [(post & H)|(pre & post & H)].
      * exists [], post. exact H.
      * exists (c :: pre), post. rewrite H. reflexivity.
    + intros (pre & post & H). destruct pre as [|c' pre].
      * left. eauto.
      * right. injection H as -> H. exists pre, post. exact H.
Qed.

Lemma occurs_length needle hay : occurs needle hay → length needle ≤ length hay.
Proof. intros (pre & post & ->). rewrite !length_app. lia. Qed.

Lemma occurs_trans a b c : occurs a b → occurs b c → occurs a c.
Proof.
  intros (p1 & q1 & ->) (p2 & q2 & ->).
  exists (p2 ++ p1), (q1 ++ q2). rewrite <- !app_assoc. reflexivity.
Qed.

Lemma occurs_rev needle hay : occurs needle hay → occurs (rev needle) (rev hay).
Proof.
  intros (pre & post & ->). exists (rev post), (rev pre).
  rewrite !rev_app_distr, <- app_assoc. reflexivity.
Qed.

(** Stripping on the left keeps every occurrence of a needle that does not
    begin with white space. *)
Lemma lstrip_occurs a needle : ∀ s,
  isspace a = false → (occurs (a :: needle) (lstrip s) ↔ occurs (a :: needle) s).
Proof.
  intros s Ha. induction s as [|c s IH]; simpl; [reflexivity|].
  destruct (isspace c) eqn:Hc; [|reflexivity].
  rewrite IH. split.
  - intros (pre & post & ->). exists (c :: pre), post. reflexivity.
  - intros (pre & post & H). destruct pre as [|c' pre].
    + injection H as -> _. congruence.
    + injection H as _ ->. exists pre, post. reflexivity.
Qed.

Lemma rstrip_occurs needle b front : ∀ s,
  rev needle = b :: front → isspace b = false →
  (occurs needle (rstrip s) ↔ occurs needle s).
Proof.
  intros s Hrev Hb. unfold rstrip. split.
  - intros H. apply occurs_rev in H. rewrite rev_involutive, Hrev in H.
    apply (proj1 (lstrip_occurs b front _ Hb)) in H. rewrite <- Hrev in H.
    apply occurs_rev in H. rewrite !rev_involutive in H. exact H.
  - intros H. apply occurs_rev in H. rewrite Hrev in H.
    apply (proj2 (lstrip_occurs b front _ Hb)) in H. rewrite <- Hrev in H.
    apply occurs_rev in H. rewrite rev_involutive in H. exact H.
Qed.

Lemma strip_occurs a needle b front s :
  isspace a = false → rev (a :: needle) = b :: front → isspace b = false →
  (occurs (a :: needle) (strip s) ↔ occurs (a :: needle) s).
Proof.
  intros Ha Hrev Hb. unfold strip.
  rewrite (rstrip_occurs _ b front _ Hrev Hb). apply lstrip_occurs. exact Ha.
Qed.

(** A needle without line breaks. *)
Definition plain (needle : text) : Prop :=
  Forall (λ c, islinebreak c = false) needle.

Lemma plain_prefix needle : ∀ a c b post,
  plain needle → islinebreak c = true →
  needle ++ post = a ++ c :: b → ∃ post', a = needle ++ post'.
Proof.
  induction needle as [|m0 needle IH]; intros a c b post Hplain Hc H.
  - exists a. reflexivity.
  - apply Forall_cons in Hplain as [Hm0 Hplain].
    destruct a as [|x a]; simpl in H.
    + injection H as -> _. congruence.
    + injection H as -> H. destruct (IH a c b post Hplain Hc H) as (post' & ->).
      exists post'. reflexivity.
Qed.

(** An occurrence of a plain needle does not straddle a line break. *)
Lemma occurs_across_break needle c : ∀ a b,
  plain needle → islinebreak c = true →
  occurs needle (a ++ c :: b) → occurs needle a ∨ occurs needle b.
Proof.
  intros a b Hplain Hc (pre & post & H). revert pre H.
  induction a as [|x a IH]; intros pre H.
  - destruct pre as [|p pre]; simpl in H.
    + destruct (plain_prefix needle [] c b post Hplain Hc (eq_sym H)) as (post' & Hnil).
      left. exists [], post'. exact Hnil.
    + injection H as _ ->. right. exists pre, post. reflexivity.
  - destruct pre as [|p pre]; simpl in H.
    + destruct (plain_prefix needle (x :: a) c b post Hplain Hc (eq_sym H))
        as (post' & Ha).
      left. exists [], post'. exact Ha.
    + injection H as _ H. destruct (IH pre H) as [(p1 & q1 & ->)|Hb].
      * left. exists (x :: p1), q1. reflexivity.
      * right. exact Hb.
Qed.

(** Every line of [splitlines] is a part of the text. *)
Lemma splitlines_from_parts n : ∀ s cur line,
  length s ≤ n → line ∈ splitlines_from cur s → occurs line (cur ++ s).
Proof.
  induction n as [|n IH]; intros s cur line Hlen Hin.
  - destruct s; [|simpl in Hlen; lia]. simpl in Hin.
    destruct cur; [inversion Hin|]. apply list_elem_of_singleton in Hin as ->.
    exists [], []. rewrite !app_nil_r. reflexivity.
  - destruct s as [|c rest]; simpl in Hin.
    + destruct cur; [inversion Hin|]. apply list_elem_of_singleton in Hin as ->.
      exists [], []. rewrite !app_nil_r. reflexivity.
    + simpl in Hlen. destruct (islinebreak c).
      * apply elem_of_cons in Hin as [->|Hin]; [exists [], (c :: rest); reflexivity|].
        destruct rest as [|c' rest']; [inversion Hin|].
        simpl in Hlen. destruct ((c =? 13)%N && (c' =? 10)%N).
        -- apply IH in Hin; [|lia]. destruct Hin as (p & q & Heq).
           simpl in Heq. rewrite Heq.
           exists (cur ++ c :: c' :: p), q. rewrite <- !app_assoc. reflexivity.
        -- apply IH in Hin; [|simpl; lia]. destruct Hin as (p & q & Heq).
           simpl in Heq. rewrite Heq.
           exists (cur ++ c :: p), q. rewrite <- !app_assoc. reflexivity.
      * apply IH in Hin; [|lia]. rewrite <- app_assoc in Hin. exact Hin.
Qed.

(** Every occurrence of a plain, non-empty needle is inside one line. *)
Lemma splitlines_from_finds needle n : ∀ s cur,
  plain needle → needle ≠ [] → length s ≤ n →
  occurs needle (cur ++ s) →
  ∃ line, line ∈ splitlines_from cur s ∧ occurs needle line.
Proof.
  intros s cur Hplain Hne. revert s cur.
  assert (Hnil : ¬ occurs needle []).
  { intros (p & q & H). destruct p; [destruct needle; [congruence|]|]; discriminate. }
  induction n as [|n IH]; intros s cur Hlen Hocc.
  - destruct s; [|simpl in Hlen; lia]. rewrite app_nil_r in Hocc. simpl.
    destruct cur; [contradiction|]. eexists. split; [constructor|exact Hocc].
  - destruct s as [|c rest].
    + rewrite app_nil_r in Hocc. simpl.
      destruct cur; [contradiction|]. eexists. split; [constructor|exact Hocc].
    + simpl in Hlen. simpl. destruct (islinebreak c) eqn:Hc.
      * apply occurs_across_break in Hocc as [Hcur|Hrest]; [| |assumption..].
        { exists cur. split; [constructor|assumption]. }
        destruct rest as [|c' rest']; [contradiction|].
        simpl in Hlen. destruct ((c =? 13)%N && (c' =? 10)%N) eqn:Hcrlf.
        -- apply andb_true_iff in Hcrlf as [_ Hlf]. apply N.eqb_eq in Hlf. subst c'.
           apply (occurs_across_break needle 10%N [] rest' Hplain eq_refl) in Hrest
             as [Hbad|Hrest']; [contradiction|].
           destruct (IH rest' [] ltac:(lia) Hrest') as (line & Hin & Hline).
           exists line. split; [apply elem_of_cons; right|]; assumption.
        -- destruct (IH (c' :: rest') [] ltac:(simpl; lia) Hrest) as (line & Hin & Hline).
           exists line. split; [apply elem_of_cons; right|]; assumption.
      * apply IH; [lia|]. rewrite <- app_assoc. exact Hocc.
Qed.

Lemma marker_plain : plain Startup.marker.
Proof. repeat constructor. Qed.

(** The marker occurs in a line of the stripped output exactly when it
    occurs in the output. *)
Lemma marker_in_some_line (output : text) :
  (∃ line, line ∈ splitlines (strip output) ∧ occurs Startup.marker line)
  ↔ occurs Startup.marker output.
Proof.
  rewrite <- (strip_occurs 85%N (lit "SB Audio Device") 101%N (lit "civeD oiduA BSU")
                output eq_refl eq_refl eq_refl).
  change (85%N :: lit "SB Audio Device") with Startup.marker.
  split.
  - intros (line & Hin & Hline).
    apply (occurs_trans _ line); [assumption|].
    apply (splitlines_from_parts (length (strip output)) _ [] line (le_n _) Hin).
  - intros Hocc.
    apply (splitlines_from_finds Startup.marker (length (strip output)) _ []
             marker_plain);
      [discriminate|apply le_n|exact Hocc].
Qed.

(** ** [get_usb_audio_card] *)

Definition no_card : startup_exn := Exception "No USB Audio Interface detected.".

(** The loop over the lines: it stops at the first line with the marker,
    and that line is long enough to have a sixth character. *)
Lemma first_card_spec lines :
  ((∃ line, line ∈ lines ∧ occurs Startup.marker line) →
   ∃ before line after c,
     lines = before ++ line :: after
     ∧ Forall (λ l, ¬ occurs Startup.marker l) before
     ∧ occurs Startup.marker line
     ∧ line !! 5 = Some c
     ∧ Startup.first_card lines = Return [c])
  ∧ ((∀ line, line ∈ lines → ¬ occurs Startup.marker line) →
     Startup.first_card lines = Raised no_card).
Proof.
  induction lines as [|l lines [IHfound IHnone]]; cbn [Startup.first_card].
  - split; [intros (line & Hin & _); inversion Hin|reflexivity].
  - destruct (contains Startup.marker l) eqn:Hc.
    + apply contains_spec in Hc. split.
      * intros _.
        pose proof (occurs_length _ _ Hc) as Hlen. change (length Startup.marker) with 16 in Hlen.
        destruct (l !! 5) as [c|] eqn:Hl; [|apply lookup_ge_None in Hl; lia].
        exists [], l, lines, c. repeat split; auto.
      * intros Hno. exfalso. apply (Hno l); [constructor|assumption].
    + assert (Hl : ¬ occurs Startup.marker l).
      { intros H. apply contains_spec in H. congruence. }
      split.
      * intros (line & Hin & Hline).
        apply elem_of_cons in Hin as [->|Hin]; [contradiction|].
        destruct (IHfound (ex_intro _ line (conj Hin Hline)))
          as (before & line' & after & c & -> & Hbefore & Hline' & Hc' & Hres).
        exists (l :: before), line', after, c. repeat split; auto.
      * intros Hno. apply IHnone. intros line Hin. apply Hno.
        apply elem_of_cons. right. exact Hin.
Qed.

Lemma card_detected_or_not (output : text) :
  (occurs Startup.marker output → ∃ c, Startup.get_usb_audio_card output = Return [c])
  ∧ (¬ occurs Startup.marker output → Startup.get_usb_audio_card output = Raised no_card).
Proof.
  unfold Startup.get_usb_audio_card.
  destruct (first_card_spec (splitlines (strip output))) as [Hfound Hnone]. split.
  - intros Hocc. apply marker_in_some_line in Hocc.
    destruct (Hfound Hocc) as (_ & _ & _ & c & _ & _ & _ & _ & Hres). eauto.
  - intros Hno. apply Hnone. intros line Hin Hline. apply Hno.
    apply marker_in_some_line. eauto.
Qed.

(** X12 -- [get_usb_audio_card] finds a card exactly when the text "USB
    Audio Device" occurs somewhere in the output of [aplay -l].  It then
    returns one character: the sixth of the first line (of the stripped
    output) in which the text occurs; such a line always has a sixth
    character, so the indexing never fails.  Otherwise it raises
    [Exception("No USB Audio Interface detected.")]. *)
Theorem usb_card_found_iff_marker (output : text) :
  (occurs Startup.marker output →
   ∃ before line after c,
     splitlines (strip output) = before ++ line :: after
     ∧ Forall (λ l, ¬ occurs Startup.marker l) before
     ∧ occurs Startup.marker line
     ∧ line !! 5 = Some c
     ∧ Startup.get_usb_audio_card output = Return [c])
  ∧ (¬ occurs Startup.marker output →
     Startup.get_usb_audio_card output = Raised no_card).
Proof.
  split; [|apply card_detected_or_not].
  intros Hocc. unfold Startup.get_usb_audio_card.
  apply (proj1 (first_card_spec (splitlines (strip output)))).
  apply marker_in_some_line. exact Hocc.
Qed.

(** The output of [aplay -l] on a machine with the on-board sound and a USB
    card that has number 12. *)
Definition aplay_two_cards : text :=
  lit ("**** List of PLAYBACK Hardware Devices ****" +:+ Startup.nl
       +:+ "card 0: Headphones [bcm2835 Headphones], device 0: bcm2835 Headphones"
       +:+ Startup.nl
       +:+ "card 12: Device [USB Audio Device], device 0: USB Audio [USB Audio]"
       +:+ Startup.nl).

Lemma usb_card_found_iff_marker_witness :
  ∃ before line after c,
    splitlines (strip aplay_two_cards) = before ++ line :: after
    ∧ Forall (λ l, ¬ occurs Startup.marker l) before
    ∧ occurs Startup.marker line
    ∧ line !! 5 = Some c
    ∧ Startup.get_usb_audio_card aplay_two_cards = Return [c].
Proof.
  apply (proj1 (usb_card_found_iff_marker aplay_two_cards)).
  apply contains_spec. vm_compute. reflexivity.
Defined.

(** ** [replace_asoundrc_file] and [main] *)

(** The file written for a card. *)
Definition asoundrc (soundcard : text) : text :=
  lit ("pcm.!default {" +:+ Startup.nl
       +:+ "            type hw" +:+ Startup.nl
       +:+ "            card ")
  ++ soundcard
  ++ lit (Startup.nl +:+ "        }" +:+ Startup.nl
          +:+ "        ctl.!default {" +:+ Startup.nl
          +:+ "            type hw" +:+ Startup.nl
          +:+ "            card ")
  ++ soundcard
  ++ lit (Startup.nl +:+ "        }").

Lemma template_filled soundcard :
  replace_hashes soundcard (strip (lit Startup.template)) = asoundrc soundcard.
Proof. vm_compute. reflexivity. Qed.

(** X13 -- [replace_asoundrc_file] writes [~/.asoundrc] with the card it
    was given in both stanzas, whatever that text is, and nothing else
    replaced; the card found by its own call of [get_usb_audio_card] is not
    used.  But that call must succeed: when "USB Audio Device" does not
    occur in the output of [aplay -l], the function raises before the file
    is opened, even though it was handed a card. *)
Theorem asoundrc_written_for_given_card (home : string) (soundcard output : text) :
  (occurs Startup.marker output →
   Startup.replace_asoundrc_file home soundcard output
   = Return (path_join home ".asoundrc", asoundrc soundcard))
  ∧ (¬ occurs Startup.marker output →
     Startup.replace_asoundrc_file home soundcard output = Raised no_card).
Proof.
  unfold Startup.replace_asoundrc_file.
  destruct (card_detected_or_not output) as [Hfound Hnone]. split.
  - intros Hocc. destruct (Hfound Hocc) as (c & ->).
    rewrite template_filled. reflexivity.
  - intros Hno. rewrite (Hnone Hno). reflexivity.
Qed.

Lemma asoundrc_written_for_given_card_witness :
  Startup.replace_asoundrc_file "/home/pi" (lit "hw:CARD=Device") aplay_two_cards
  = Return (path_join "/home/pi" ".asoundrc", asoundrc (lit "hw:CARD=Device")).
Proof.
  apply (proj1 (asoundrc_written_for_given_card "/home/pi" (lit "hw:CARD=Device")
                  aplay_two_cards)).
  apply contains_spec. vm_compute. reflexivity.
Defined.

(** X14 -- the sound set-up of [main] runs [aplay -l] twice.  It writes the
    file when "USB Audio Device" occurs in both outputs, and the card
    written is the one character taken from the first output; when the
    text is missing from either output, [main] raises before the phone is
    constructed. *)
Theorem main_needs_card_twice (home : string) (first_output second_output : text) :
  (occurs Startup.marker first_output → occurs Startup.marker second_output →
   ∃ c, Startup.get_usb_audio_card first_output = Return [c]
        ∧ Startup.main_asoundrc home first_output second_output
          = Return (path_join home ".asoundrc", asoundrc [c]))
  ∧ (¬ occurs Startup.marker first_output ∨ ¬ occurs Startup.marker second_output →
     Startup.main_asoundrc home first_output second_output = Raised no_card).
Proof.
  unfold Startup.main_asoundrc, Startup.replace_asoundrc_file.
  destruct (card_detected_or_not first_output) as [Hfound1 Hnone1].
  destruct (card_detected_or_not second_output) as [Hfound2 Hnone2].
  split.
  - intros H1 H2. destruct (Hfound1 H1) as (c & Hc). destruct (Hfound2 H2) as (c2 & Hc2).
    exists c. rewrite Hc, Hc2, template_filled. auto.
  - intros [H1|H2].
    + rewrite (Hnone1 H1). reflexivity.
    + destruct (contains Startup.marker first_output) eqn:Hc.
      * apply contains_spec in Hc. destruct (Hfound1 Hc) as (c & ->).
        rewrite (Hnone2 H2). reflexivity.
      * rewrite Hnone1; [reflexivity|].
        intros Hocc. apply contains_spec in Hocc. congruence.
Qed.

Lemma main_needs_card_twice_witness :
  ∃ c, Startup.get_usb_audio_card aplay_two_cards = Return [c]
       ∧ Startup.main_asoundrc "/home/pi" aplay_two_cards aplay_two_cards
         = Return (path_join "/home/pi" ".asoundrc", asoundrc [c]).
Proof.
  apply (proj1 (main_needs_card_twice "/home/pi" aplay_two_cards aplay_two_cards));
    apply contains_spec; vm_compute; reflexivity.
Defined.
